(** * nefertari_es.meta: document registry and the DocTypeMeta pipeline

    A shallow embedding of [nefertari_es/meta.py].  Python objects live in
    an explicit store so that the in-place updates done by the metaclass
    mixins (a target class's mapping, a field's [_back_populates]) are
    visible through every alias of the object. *)

From stdpp Require Import base option list strings gmap fin_maps.
From Stdlib Require Import Lia.

Local Open Scope string_scope.
Local Open Scope list_scope.

(** ** Insertion-ordered dictionaries

    [attrs], a class [__dict__], a mapping and [nondoc_fields] are all
    iterated by the code, so they are kept as association lists with
    unique keys in insertion order (the order CPython's [dict] iterates
    in): [set] overwrites in place or appends. *)
Module OrderedDict.
Section defs.
Context {V : Type}.

Fixpoint get (k : string) (d : list (string * V)) : option V :=
  match d with
  | [] => None
  | (k', v) :: d' => if decide (k = k') then Some v else get k d'
  end.

Definition mem (k : string) (d : list (string * V)) : bool :=
  match get k d with Some _ => true | None => false end.

Fixpoint set (k : string) (v : V) (d : list (string * V))
  : list (string * V) :=
  match d with
  | [] => [(k, v)]
  | (k', v') :: d' =>
      if decide (k = k') then (k, v) :: d' else (k', v') :: set k v d'
  end.

Definition keys (d : list (string * V)) : list string := d.*1.

(** [d.update(src)] *)
Definition update (d src : list (string * V)) : list (string * V) :=
  fold_left (fun acc kv => set kv.1 kv.2 acc) src d.
End defs.
End OrderedDict.

Abbreviation odict V := (list (string * V)).

(** ** Python values and objects *)

(** References into the store. *)
Abbreviation ref := nat.

(** Keyword-argument values: field names and flags such as [uselist]. *)
Inductive kwval :=
| KStr (s : string)
| KBool (b : bool).

(** Modelled from the spec: [fields.Relationship] is not among the
    available sources.  A relationship field carries a target class
    reference (the document name given to its constructor, resolved
    through the registry), its keyword options, the optional
    inverse-relationship request [_backref_kwargs] (target field name
    under the key "name" plus keyword options) and the mutable
    back-populate marker [_back_populates]. *)
Record Relationship := mkRelationship {
  document : string;
  options : gmap string kwval;
  _backref_kwargs : option (gmap string kwval);
  _back_populates : option string
}.

(** Instances of [elasticsearch_dsl.field.Field]. *)
Inductive Field :=
| PlainField (type : string)
| RelField (r : Relationship).

(** Values bound in a class body: a [Field] instance or anything else. *)
Inductive pyval :=
| VField (f : ref)
| VOther (repr : string).

(** A class object.  [_doc_type] is the mapping of [cls._doc_type.mapping]
    when the class has one (field name to field object). *)
Record pyclass := mkClass {
  cls_name : string;
  cls_bases : list ref;
  cls_dict : odict pyval;
  _doc_type : option (odict ref)
}.

(** An [elasticsearch_dsl.Index] under construction. *)
Record Index := mkIndex {
  index_name : string;
  index_doc_types : list ref
}.

(** The store: field objects, class objects, the module-level
    [_document_registry], and the indices that exist on the search
    cluster. *)
Record state := mkState {
  field_heap : list Field;
  class_heap : list pyclass;
  _document_registry : gmap string ref;
  es_indices : gmap string (list ref)
}.

Definition initial_state : state :=
  {| field_heap := []; class_heap := [];
     _document_registry := ∅; es_indices := ∅ |}.

Definition with_fields (h : list Field) (s : state) : state :=
  {| field_heap := h; class_heap := class_heap s;
     _document_registry := _document_registry s;
     es_indices := es_indices s |}.

Definition with_classes (h : list pyclass) (s : state) : state :=
  {| field_heap := field_heap s; class_heap := h;
     _document_registry := _document_registry s;
     es_indices := es_indices s |}.

Definition with_registry (r : gmap string ref) (s : state) : state :=
  {| field_heap := field_heap s; class_heap := class_heap s;
     _document_registry := r; es_indices := es_indices s |}.

Definition with_indices (i : gmap string (list ref)) (s : state) : state :=
  {| field_heap := field_heap s; class_heap := class_heap s;
     _document_registry := _document_registry s; es_indices := i |}.

(** ** Exceptions and the store monad *)

Inductive exn :=
| KeyError (key : string)
| AttributeError (attr : string)
| TypeError
| RequestError (index : string).

(** A call either returns a value or raises; the store survives both
    ways, since nothing is rolled back. *)
Inductive outcome (A : Type) :=
| Ok (a : A) (s : state)
| Raise (e : exn) (s : state).
Arguments Ok {A} a s.
Arguments Raise {A} e s.

Definition M (A : Type) : Type := state -> outcome A.

Definition ret {A} (a : A) : M A := fun s => Ok a s.

Definition raise {A} (e : exn) : M A := fun s => Raise e s.

Definition bind {A B} (m : M A) (k : A -> M B) : M B :=
  fun s => match m s with
           | Ok a s' => k a s'
           | Raise e s' => Raise e s'
           end.

Notation "x <- m ;; k" := (bind m (fun x => k))
  (at level 100, m at next level, right associativity).
Notation "m ;;; k" := (bind m (fun _ => k))
  (at level 100, right associativity).

Definition final_state {A} (o : outcome A) : state :=
  match o with Ok _ s => s | Raise _ s => s end.

(** [for x in l: body(x)] *)
Fixpoint for_each {A} (l : list A) (body : A -> M unit) : M unit :=
  match l with
  | [] => ret tt
  | x :: l' => body x ;;; for_each l' body
  end.

(** ** Store primitives *)

Definition new_field (f : Field) : M ref :=
  fun s => Ok (length (field_heap s)) (with_fields (field_heap s ++ [f]) s).

Definition new_class (c : pyclass) : M ref :=
  fun s => Ok (length (class_heap s)) (with_classes (class_heap s ++ [c]) s).

(** Reading the attributes of a relationship field. *)
Definition read_relationship (f : ref) : M Relationship :=
  fun s => match field_heap s !! f with
           | Some (RelField r) => Ok r s
           | _ => Raise (AttributeError "_backref_kwargs") s
           end.

(** [field._back_populates = name] *)
Definition set_back_populates (f : ref) (name : string) : M unit :=
  fun s => match field_heap s !! f with
           | Some (RelField r) =>
               Ok tt (with_fields
                        (<[f := RelField (mkRelationship (document r) (options r)
                                            (_backref_kwargs r) (Some name))]>
                           (field_heap s)) s)
           | _ => Raise (AttributeError "_back_populates") s
           end.

(** [cls.__name__] *)
Definition class_name (c : ref) : M string :=
  fun s => match class_heap s !! c with
           | Some cls => Ok (cls_name cls) s
           | None => Raise (AttributeError "__name__") s
           end.

(** [cls._doc_type.mapping[name]] *)
Definition mapping_getitem (c : ref) (name : string) : M ref :=
  fun s => match class_heap s !! c ≫= _doc_type with
           | Some m => match OrderedDict.get name m with
                       | Some f => Ok f s
                       | None => Raise (KeyError name) s
                       end
           | None => Raise (AttributeError "_doc_type") s
           end.

(** Modelled from the spec: [Mapping.field] belongs to the mapping
    foundation; it inserts a field into an already-finalized mapping
    under the given name, overwriting a field of that name. *)
Definition mapping_field (c : ref) (name : string) (f : ref) : M unit :=
  fun s => match class_heap s !! c with
           | Some cls =>
               match _doc_type cls with
               | Some m =>
                   Ok tt (with_classes
                            (<[c := mkClass (cls_name cls) (cls_bases cls)
                                      (cls_dict cls)
                                      (Some (OrderedDict.set name f m))]>
                               (class_heap s)) s)
               | None => Raise (AttributeError "_doc_type") s
               end
           | None => Raise (AttributeError "_doc_type") s
           end.

(** ** The document registry *)

Definition get_document_cls (name : string) : M ref :=
  fun s => match _document_registry s !! name with
           | Some c => Ok c s
           | None => Raise (KeyError name) s
           end.

Definition get_document_classes : M (gmap string ref) :=
  fun s => Ok (_document_registry s) s.

(** ** Index creation *)

Definition Index_init (name : string) : Index :=
  {| index_name := name; index_doc_types := [] |}.

(** [index.doc_type(doc_cls)] *)
Definition Index_doc_type (index : Index) (doc_cls : ref) : Index :=
  {| index_name := index_name index;
     index_doc_types := index_doc_types index ++ [doc_cls] |}.

(** Modelled from the spec: [Index.create] belongs to the search client;
    it creates the index with its document classes and fails when an
    index of that name already exists. *)
Definition Index_create (index : Index) : M unit :=
  fun s => match es_indices s !! index_name index with
           | Some _ => Raise (RequestError (index_name index)) s
           | None =>
               Ok tt (with_indices
                        (<[index_name index := index_doc_types index]>
                           (es_indices s)) s)
           end.

(** [d.values()] of an unordered dictionary. *)
Definition values {V} (d : gmap string V) : list V := (map_to_list d).*2.

Definition create_index (index_name : string)
    (doc_classes : option (list ref)) : M unit :=
  let index := Index_init index_name in
  doc_classes <- match doc_classes with
                 | None => registry <- get_document_classes ;; ret (values registry)
                 | Some l => ret l
                 end ;;
  let index := fold_left Index_doc_type doc_classes index in
  Index_create index.

(** ** Collaborators of the metaclass mixins *)

Definition isinstance_Field (v : pyval) : bool :=
  match v with VField _ => true | VOther _ => false end.

Definition isinstance_Relationship (s : state) (f : ref) : bool :=
  match field_heap s !! f with Some (RelField _) => true | _ => false end.

(** Modelled from the spec: the constructor of [fields.Relationship] is
    not among the available sources.  It builds a relationship field on
    the named document class carrying the given keyword options, with no
    inverse request and no back-populate marker yet. *)
Definition Relationship_init (document : string)
    (kwargs : gmap string kwval) : Relationship :=
  {| document := document; options := kwargs;
     _backref_kwargs := None; _back_populates := None |}.

(** Modelled from the spec: the property [Relationship._doc_class] is not
    among the available sources.  It yields the target class, which has to
    be registered already; an unregistered target fails. *)
Definition _doc_class (r : Relationship) : M ref :=
  fun s => match _document_registry s !! document r with
           | Some c => Ok c s
           | None => Raise (KeyError (document r)) s
           end.

(** Modelled from the spec: [BaseDocument._relationships] is not among the
    available sources.  It enumerates the names of the relationship-typed
    fields of the class's finalized mapping. *)
Definition _relationships (c : ref) : M (list string) :=
  fun s => match class_heap s !! c ≫= _doc_type with
           | Some m =>
               Ok (filter (fun name =>
                             match OrderedDict.get name m with
                             | Some f => isinstance_Relationship s f
                             | None => false
                             end = true)
                     (OrderedDict.keys m)) s
           | None => Raise (AttributeError "_doc_type") s
           end.

(** Modelled from the spec: [Mapping.to_dict] belongs to the mapping
    foundation; it serializes a finalized mapping to a dictionary keyed by
    field name.  Only the keys are consulted. *)
Definition to_dict (m : odict ref) : odict ref := m.

(** The fields a class body declares, by name. *)
Definition declared_fields (attrs : odict pyval) : odict ref :=
  omap (fun kv => match kv.2 with
                  | VField f => Some (kv.1, f)
                  | VOther _ => None
                  end) attrs.

(** [hasattr(base, '_doc_type') and hasattr(base._doc_type, 'mapping')],
    together with the mapping when there is one. *)
Definition base_mapping (s : state) (base : ref) : option (odict ref) :=
  class_heap s !! base ≫= _doc_type.

(** [base.__dict__].  Every base of a class is a class object of the
    store; a reference that is not would read as a class without
    attributes. *)
Definition base_dict (s : state) (base : ref) : odict pyval :=
  default [] (cls_dict <$> class_heap s !! base).

(** Signature of a metaclass [__new__(cls, name, bases, attrs)]. *)
Abbreviation metaclass_new :=
  (string -> list ref -> odict pyval -> M ref).

(** [type.__new__]: an ordinary class, without a mapping. *)
Definition type_new : metaclass_new :=
  fun name bases attrs =>
    new_class {| cls_name := name; cls_bases := bases;
                 cls_dict := attrs; _doc_type := None |}.

(** Modelled from the spec: [elasticsearch_dsl]'s [DocTypeMeta.__new__] is
    the external mapping foundation.  It finalizes the mapping of the new
    class from the fields among its attributes and adds, from each
    document-typed base, the fields the class does not have yet. *)
Definition ESDocTypeMeta_new : metaclass_new :=
  fun name bases attrs s =>
    let inherit mapping base :=
      match base_mapping s base with
      | Some m =>
          fold_left (fun acc kf =>
                       if OrderedDict.mem kf.1 acc then acc
                       else OrderedDict.set kf.1 kf.2 acc) m mapping
      | None => mapping
      end in
    new_class {| cls_name := name; cls_bases := bases; cls_dict := attrs;
                 _doc_type := Some (fold_left inherit bases
                                      (declared_fields attrs)) |} s.

(** ** RegisteredDocMixin *)

(** [_document_registry[new_class.__name__] = new_class] *)
Definition register (new_class : ref) : M unit :=
  new_name <- class_name new_class ;;
  fun s => Ok tt (with_registry
                    (<[new_name := new_class]> (_document_registry s)) s).

Definition RegisteredDocMixin_new (super_new : metaclass_new)
  : metaclass_new :=
  fun name bases attrs =>
    new_class <- super_new name bases attrs ;;
    register new_class ;;;
    ret new_class.

(** ** NonDocumentInheritanceMixin *)

(** One turn of [for base in bases]. *)
Definition scan_base (s : state) (acc : odict pyval * odict ref)
    (base : ref) : odict pyval * odict ref :=
  let '(nondoc_fields, base_docs_fields) := acc in
  match base_mapping s base with
  | Some mapping =>
      (nondoc_fields, OrderedDict.update base_docs_fields (to_dict mapping))
  | None =>
      (fold_left (fun nondoc_fields kv =>
                    if isinstance_Field kv.2
                    then OrderedDict.set kv.1 kv.2 nondoc_fields
                    else nondoc_fields)
         (base_dict s base) nondoc_fields,
       base_docs_fields)
  end.

Definition scan_bases (s : state) (bases : list ref)
  : odict pyval * odict ref :=
  fold_left (scan_base s) bases ([], []).

(** One turn of [for name, field in nondoc_fields.items()].  The loop
    variable is called [name], like the parameter of [__new__], so each
    turn rebinds it. *)
Definition inherit_step (base_docs_fields : odict ref)
    (acc : string * odict pyval) (item : string * pyval)
  : string * odict pyval :=
  let '(_, attrs) := acc in
  let '(name, field) := item in
  (name,
   if negb (OrderedDict.mem name attrs)
      && negb (OrderedDict.mem name base_docs_fields)
   then OrderedDict.set name field attrs
   else attrs).

(** The two loops of [__new__]: the name and the attributes handed on to
    [super().__new__]. *)
Definition inherit_fields (s : state) (name : string) (bases : list ref)
    (attrs : odict pyval) : string * odict pyval :=
  let '(nondoc_fields, base_docs_fields) := scan_bases s bases in
  fold_left (inherit_step base_docs_fields) nondoc_fields (name, attrs).

Definition NonDocumentInheritanceMixin_new (super_new : metaclass_new)
  : metaclass_new :=
  fun name bases attrs s =>
    let '(name, attrs) := inherit_fields s name bases attrs in
    super_new name bases attrs s.

(** ** BackrefGeneratingDocMixin *)

(** Truth value of [field._backref_kwargs]: [None] and the empty
    dictionary are false. *)
Definition truthy (kwargs : option (gmap string kwval)) : bool :=
  match kwargs with
  | None => false
  | Some d => negb (bool_decide (d = ∅))
  end.

(** [d.pop('name')], the popped value being used as a field name.  The
    mappings of this model are keyed by strings, so a popped value that is
    not a string has nowhere to go: the model stops with [TypeError]. *)
Definition pop_name (d : gmap string kwval)
  : M (string * gmap string kwval) :=
  match d !! "name" with
  | Some (KStr field_name) => ret (field_name, delete "name" d)
  | Some (KBool _) => raise TypeError
  | None => raise (KeyError "name")
  end.

(** [d.setdefault(k, v)] *)
Definition setdefault (k : string) (v : kwval) (d : gmap string kwval)
  : gmap string kwval :=
  match d !! k with Some _ => d | None => <[k := v]> d end.

(** The body of [for name in relationships]. *)
Definition backref_body (new_class : ref) (name : string) : M unit :=
  field <- mapping_getitem new_class name ;;
  r <- read_relationship field ;;
  if negb (truthy (_backref_kwargs r)) then ret tt
  else
    target_cls <- _doc_class r ;;
    (* .copy(): the dictionary held by the field is not the one popped *)
    let backref_kwargs := default ∅ (_backref_kwargs r) in
    popped <- pop_name backref_kwargs ;;
    let field_name := popped.1 in
    let backref_kwargs := setdefault "uselist" (KBool false) popped.2 in
    new_name <- class_name new_class ;;
    backref_field <- new_field (RelField (Relationship_init new_name backref_kwargs)) ;;
    set_back_populates backref_field name ;;;
    mapping_field target_cls field_name backref_field ;;;
    set_back_populates field field_name.

(** Everything [__new__] does once the class exists. *)
Definition generate_backrefs (new_class : ref) : M unit :=
  relationships <- _relationships new_class ;;
  for_each relationships (backref_body new_class).

Definition BackrefGeneratingDocMixin_new (super_new : metaclass_new)
  : metaclass_new :=
  fun name bases attrs =>
    new_class <- super_new name bases attrs ;;
    generate_backrefs new_class ;;;
    ret new_class.

(** ** DocTypeMeta *)

(** The method resolution order chains the mixins' [__new__] through
    [super]: RegisteredDocMixin, NonDocumentInheritanceMixin,
    BackrefGeneratingDocMixin, then the foundation. *)
Definition DocTypeMeta_new : metaclass_new :=
  RegisteredDocMixin_new
    (NonDocumentInheritanceMixin_new
       (BackrefGeneratingDocMixin_new ESDocTypeMeta_new)).

(** ** Programs over the module

    What client code can do: instantiate fields, declare ordinary classes
    and document classes, look classes up and create indices. *)
Inductive call :=
| NewField (f : Field)
| DeclareClass (name : string) (bases : list ref) (attrs : odict pyval)
| DeclareDocument (name : string) (bases : list ref) (attrs : odict pyval)
| GetDocumentCls (name : string)
| CreateIndex (index_name : string) (doc_classes : option (list ref)).

Definition run_call (s : state) (c : call) : state :=
  match c with
  | NewField f => final_state (new_field f s)
  | DeclareClass name bases attrs => final_state (type_new name bases attrs s)
  | DeclareDocument name bases attrs =>
      final_state (DocTypeMeta_new name bases attrs s)
  | GetDocumentCls name => final_state (get_document_cls name s)
  | CreateIndex index_name doc_classes =>
      final_state (create_index index_name doc_classes s)
  end.

Definition run (calls : list call) : state :=
  fold_left run_call calls initial_state.

Definition reachable (s : state) : Prop := exists calls, s = run calls.

(** ** Vocabulary of the properties *)

(** Two snapshots of one field object that differ at most in the
    back-populate marker. *)
Definition same_but_marker (f f' : Field) : Prop :=
  match f, f' with
  | PlainField t, PlainField t' => t = t'
  | RelField r, RelField r' =>
      document r' = document r /\ options r' = options r
      /\ _backref_kwargs r' = _backref_kwargs r
  | _, _ => False
  end.

(** Two snapshots of one class object that differ at most in the contents
    of the mapping. *)
Definition same_but_mapping (c c' : pyclass) : Prop :=
  cls_name c' = cls_name c /\ cls_bases c' = cls_bases c
  /\ cls_dict c' = cls_dict c
  /\ (is_Some (_doc_type c) <-> is_Some (_doc_type c')).

(** [s'] comes after [s]: objects stay where they are, fields change at
    most their marker, classes at most their mapping, and neither the
    registry nor the cluster changes. *)
Definition evolves (s s' : state) : Prop :=
  (forall f fld, field_heap s !! f = Some fld ->
     exists fld', field_heap s' !! f = Some fld' /\ same_but_marker fld fld')
  /\ (forall c cls, class_heap s !! c = Some cls ->
        exists cls', class_heap s' !! c = Some cls' /\ same_but_mapping cls cls')
  /\ _document_registry s' = _document_registry s
  /\ es_indices s' = es_indices s.

(** A computation under which the store only evolves, whatever the
    outcome. *)
Definition evolving {A} (m : M A) : Prop :=
  forall s, evolves s (final_state (m s)).

(** Every registry entry is filed under the [__name__] of its class. *)
Definition registry_named (s : state) : Prop :=
  forall name c, _document_registry s !! name = Some c ->
    exists cls, class_heap s !! c = Some cls /\ cls_name cls = name.

(** A name is covered by the mapping of a document-typed base. *)
Definition covered (s : state) (bases : list ref) (key : string) : Prop :=
  exists base mapping,
    base ∈ bases /\ base_mapping s base = Some mapping
    /\ OrderedDict.mem key mapping = true.

(** [base] is a non-document base that declares the field [val] under
    [key]. *)
Definition declares_field (s : state) (base : ref) (key : string)
    (val : pyval) : Prop :=
  base_mapping s base = None
  /\ OrderedDict.get key (base_dict s base) = Some val
  /\ isinstance_Field val = true.

(** The field [f] is bound to [name] in the mapping of class [c] and
    carries an inverse-relationship request. *)
Definition carries_request (s : state) (c : ref) (name : string)
    (f : ref) : Prop :=
  exists m r,
    base_mapping s c = Some m /\ OrderedDict.get name m = Some f
    /\ field_heap s !! f = Some (RelField r)
    /\ truthy (_backref_kwargs r) = true.

(** The request of that field names [field_name] on the class [target]. *)
Definition requests (s : state) (c : ref) (name : string) (f : ref)
    (target : ref) (field_name : string) : Prop :=
  exists m r d,
    base_mapping s c = Some m /\ OrderedDict.get name m = Some f
    /\ field_heap s !! f = Some (RelField r)
    /\ _backref_kwargs r = Some d /\ truthy (Some d) = true
    /\ d !! "name" = Some (KStr field_name)
    /\ _document_registry s !! document r = Some target.

(** In [s'], the class [target] has under [field_name] a counterpart whose
    marker is [name], and the marker of the field [f] is [field_name]. *)
Definition symmetric_pair (s' : state) (target : ref) (field_name : string)
    (f : ref) (name : string) : Prop :=
  exists tm bf br r',
    base_mapping s' target = Some tm
    /\ OrderedDict.get field_name tm = Some bf
    /\ field_heap s' !! bf = Some (RelField br)
    /\ _back_populates br = Some name
    /\ field_heap s' !! f = Some (RelField r')
    /\ _back_populates r' = Some field_name.

(** A symmetric pair whose counterpart was created after the store [s]. *)
Definition synthesized_pair (s s' : state) (target : ref)
    (field_name : string) (f : ref) (name : string) : Prop :=
  exists tm bf br r',
    base_mapping s' target = Some tm
    /\ OrderedDict.get field_name tm = Some bf
    /\ length (field_heap s) <= bf
    /\ field_heap s' !! bf = Some (RelField br)
    /\ _back_populates br = Some name
    /\ field_heap s' !! f = Some (RelField r')
    /\ _back_populates r' = Some field_name.

(** What the field bound to [name] in class [c] asks of backref
    synthesis. *)
Inductive plan :=
| NoRequest
| Request (f : ref) (target : ref) (field_name : string)
| Malformed.

Definition plan_of (s : state) (c : ref) (name : string) : plan :=
  match base_mapping s c ≫= OrderedDict.get name with
  | Some f =>
      match field_heap s !! f with
      | Some (RelField r) =>
          if truthy (_backref_kwargs r) then
            match _document_registry s !! document r,
                  default ∅ (_backref_kwargs r) !! "name" with
            | Some target, Some (KStr field_name) =>
                match base_mapping s target with
                | Some _ => Request f target field_name
                | None => Malformed
                end
            | _, _ => Malformed
            end
          else NoRequest
      | _ => Malformed
      end
  | None => Malformed
  end.

Definition plan_target (p : plan) : option (ref * string) :=
  match p with
  | Request _ target field_name => Some (target, field_name)
  | _ => None
  end.

Definition is_malformed (p : plan) : bool :=
  match p with Malformed => true | _ => false end.

(** The requests of class [c] are well formed: each names a registered
    target that has a mapping, other than [c] itself, and no two ask for
    the same field name on the same target. *)
Definition well_formed_requests (s : state) (c : ref) : bool :=
  match _relationships c s with
  | Ok names _ =>
      let plans := plan_of s c <$> names in
      forallb (fun p => negb (is_malformed p)) plans
      && forallb (fun tf => negb (bool_decide (tf.1 = c)))
           (omap plan_target plans)
      && bool_decide (NoDup (omap plan_target plans))
  | Raise _ _ => false
  end.

(** ** Example programs *)

Definition relationship (document : string)
    (backref : option (gmap string kwval)) : Field :=
  RelField {| document := document; options := ∅;
              _backref_kwargs := backref; _back_populates := None |}.

(** [Author], then [Book] with [author = Relationship('Author',
    backref name 'books', uselist True)]. *)
Definition author_field : Field :=
  relationship "Author"
    (Some (<["name" := KStr "books"]> (<["uselist" := KBool true]> ∅))).

Definition author_declared : state :=
  run [DeclareDocument "Author" [] []; NewField author_field].

Definition book_finalized : state :=
  final_state (ESDocTypeMeta_new "Book" [] [("author", VField 0)]
                 author_declared).

Definition author_book : state :=
  run [DeclareDocument "Author" [] []; NewField author_field;
       DeclareDocument "Book" [] [("author", VField 0)]].

(** [class Mixin(object): f = Field()], the document class
    [BaseDocument], then [class Story(Mixin, BaseDocument)]. *)
Definition story_program : list call :=
  [NewField (PlainField "string");
   DeclareClass "Mixin" [] [("f", VField 0)];
   DeclareDocument "BaseDocument" [] [];
   DeclareDocument "Story" [0; 1] []].

(** Two relationships of one class asking for the same backref. *)
Definition colliding : state :=
  final_state
    (ESDocTypeMeta_new "N" [] [("a", VField 0); ("b", VField 1)]
       (run [DeclareDocument "T" [] [];
             NewField (relationship "T" (Some {["name" := KStr "x"]}));
             NewField (relationship "T" (Some {["name" := KStr "x"]}))])).

(** A relationship whose target was never declared. *)
Definition dangling_target : list call :=
  [NewField (relationship "Author" (Some {["name" := KStr "books"]}))].

(** Two mixins declaring the same field name. *)
Definition two_mixins : state :=
  run [NewField (PlainField "string"); NewField (PlainField "integer");
       DeclareClass "First" [] [("f", VField 0)];
       DeclareClass "Second" [] [("f", VField 1)]].

(** A relationship without an inverse request. *)
Definition one_directional : state :=
  final_state
    (ESDocTypeMeta_new "Book" [] [("author", VField 0)]
       (run [DeclareDocument "Author" [] [];
             NewField (relationship "Author" None)])).

(** ** Vocabulary of the further properties *)

(** A field object of the shape backref synthesis gives the counterparts
    it builds for a class named [cname]: a relationship on [cname] without
    an inverse request of its own, whose options have no entry "name" and
    have an entry "uselist". *)
Definition backref_shaped (cname : string) (fld : Field) : Prop :=
  exists r,
    fld = RelField r /\ document r = cname /\ _backref_kwargs r = None
    /\ options r !! "name" = None /\ is_Some (options r !! "uselist").

(** [s'] comes after [s] by steps of backref synthesis for class [c]: on
    top of [evolves], no class is created, no mapping loses a name, and
    every field object created in between is [backref_shaped]. *)
Definition synthesized (c : ref) (s s' : state) : Prop :=
  evolves s s'
  /\ length (class_heap s') = length (class_heap s)
  /\ length (field_heap s) <= length (field_heap s')
  /\ (forall c0 m key,
        base_mapping s c0 = Some m -> OrderedDict.mem key m = true ->
        exists m', base_mapping s' c0 = Some m'
                   /\ OrderedDict.mem key m' = true)
  /\ (forall i fld,
        length (field_heap s) <= i -> field_heap s' !! i = Some fld ->
        exists cls, class_heap s !! c = Some cls
                    /\ backref_shaped (cls_name cls) fld).

(** A base that contributes no candidate: a document class, or a class
    whose body binds no [Field]. *)
Definition binds_no_field (s : state) (base : ref) : Prop :=
  is_Some (base_mapping s base)
  \/ Forall (fun kv => isinstance_Field kv.2 = false) (base_dict s base).

(** What a declaration leaves of the store it started from, whatever its
    outcome. *)
Definition declared_over (s s' : state) : Prop :=
  (forall f fld, field_heap s !! f = Some fld ->
     exists fld', field_heap s' !! f = Some fld' /\ same_but_marker fld fld')
  /\ (forall c cls, class_heap s !! c = Some cls ->
        exists cls', class_heap s' !! c = Some cls' /\ same_but_mapping cls cls')
  /\ es_indices s' = es_indices s
  /\ (forall name,
        _document_registry s' !! name = _document_registry s !! name
        \/ _document_registry s' !! name = Some (length (class_heap s))).

(** [Book.author] asks for a backref without saying its name. *)
Definition nameless_request : state :=
  final_state
    (ESDocTypeMeta_new "Book" [] [("author", VField 0)]
       (run [DeclareDocument "Author" [] [];
             NewField (relationship "Author"
                         (Some {["uselist" := KBool true]}))])).

(** [Author] declared twice over. *)
Definition author_once : state := run [DeclareDocument "Author" [] []].

(** [Book.author] asks for the backref [writings] on [Author], with an
    option [lazy] and without saying [uselist]. *)
Definition colliding_free : state :=
  final_state
    (ESDocTypeMeta_new "Book" [] [("author", VField 0)]
       (run [DeclareDocument "Author" [] [];
             NewField (relationship "Author"
                         (Some (<["name" := KStr "writings"]>
                                  {["lazy" := KBool true]})))])).

(** * Properties *)

(** ** Ordered dictionaries *)

Section OrderedDictFacts.
Context {V : Type}.
Implicit Types (d : odict V) (k : string) (v : V).

Lemma get_set_eq k v d :
  OrderedDict.get k (OrderedDict.set k v d) = Some v.
Proof.
  induction d as [|[k' v'] d IH]; simpl.
  - by rewrite decide_True.
  - destruct (decide (k = k')) as [->|Hne]; simpl.
    + by rewrite decide_True.
    + by rewrite decide_False.
Qed.

Lemma get_set_ne k k' v d :
  k <> k' -> OrderedDict.get k' (OrderedDict.set k v d) = OrderedDict.get k' d.
Proof.
  intros Hne. induction d as [|[k0 v0] d IH]; simpl.
  - by rewrite decide_False.
  - destruct (decide (k = k0)) as [->|Hne0]; simpl.
    + by rewrite !decide_False.
    + by rewrite IH.
Qed.

Lemma get_set k k' v d :
  OrderedDict.get k' (OrderedDict.set k v d)
  = if decide (k = k') then Some v else OrderedDict.get k' d.
Proof.
  destruct (decide (k = k')) as [->|Hne];
    [apply get_set_eq | by apply get_set_ne].
Qed.

Lemma mem_set k k' v d :
  OrderedDict.mem k' (OrderedDict.set k v d)
  = bool_decide (k = k') || OrderedDict.mem k' d.
Proof.
  unfold OrderedDict.mem. rewrite get_set.
  destruct (decide (k = k')) as [->|Hne].
  - by rewrite bool_decide_true.
  - by rewrite bool_decide_false.
Qed.

Lemma mem_update k d src :
  OrderedDict.mem k (OrderedDict.update d src)
  = OrderedDict.mem k d || OrderedDict.mem k src.
Proof.
  unfold OrderedDict.update. revert d.
  induction src as [|[k0 v0] src IH]; intros d; simpl.
  - unfold OrderedDict.mem at 3. simpl. by rewrite orb_false_r.
  - rewrite IH, mem_set. unfold OrderedDict.mem at 4. simpl.
    destruct (decide (k = k0)) as [->|Hne].
    + rewrite bool_decide_true by done.
      by rewrite orb_true_r, orb_true_l.
    + rewrite bool_decide_false by congruence. simpl.
      by unfold OrderedDict.mem.
Qed.

Lemma get_None_keys k d :
  OrderedDict.get k d = None <-> k ∉ OrderedDict.keys d.
Proof.
  unfold OrderedDict.keys.
  induction d as [|[k' v'] d IH]; simpl.
  - split; [intros _; apply not_elem_of_nil | done].
  - rewrite not_elem_of_cons.
    destruct (decide (k = k')) as [->|Hne]; [|tauto].
    split; [done | intros [? _]; done].
Qed.

Lemma get_Some_elem_of k v d :
  OrderedDict.get k d = Some v -> (k, v) ∈ d.
Proof.
  induction d as [|[k' v'] d IH]; simpl; [done|].
  destruct (decide (k = k')) as [->|Hne].
  - intros [= ->]. apply list_elem_of_here.
  - intros H. apply list_elem_of_further. auto.
Qed.

Lemma elem_of_get k v d :
  NoDup (OrderedDict.keys d) -> (k, v) ∈ d -> OrderedDict.get k d = Some v.
Proof.
  unfold OrderedDict.keys.
  induction d as [|[k' v'] d IH]; simpl; intros Hnd Hin.
  - by apply elem_of_nil in Hin.
  - apply NoDup_cons in Hnd as [Hk Hnd].
    apply elem_of_cons in Hin as [[= -> ->]|Hin].
    + by rewrite decide_True.
    + rewrite decide_False; [by apply IH|].
      intros ->. apply Hk. apply list_elem_of_fmap.
      by exists (k', v).
Qed.

Lemma keys_set k v d :
  (OrderedDict.keys (OrderedDict.set k v d) = OrderedDict.keys d)
  \/ ((k ∉ OrderedDict.keys d)
      /\ OrderedDict.keys (OrderedDict.set k v d) = OrderedDict.keys d ++ [k]).
Proof.
  unfold OrderedDict.keys.
  induction d as [|[k' v'] d IH].
  - right. split; [apply not_elem_of_nil | done].
  - cbn [OrderedDict.set].
    destruct (decide (k = k')) as [->|Hne]; [by left|].
    rewrite !fmap_cons. cbn [fst].
    destruct IH as [->|[Hk ->]]; [by left|].
    right. split; [|done]. rewrite not_elem_of_cons. done.
Qed.

Lemma NoDup_keys_set k v d :
  NoDup (OrderedDict.keys d) -> NoDup (OrderedDict.keys (OrderedDict.set k v d)).
Proof.
  intros Hnd. destruct (keys_set k v d) as [->|[Hk ->]]; [done|].
  apply NoDup_app. split_and!; [done | | apply NoDup_singleton].
  intros x Hx Hx'. apply list_elem_of_singleton in Hx' as ->. done.
Qed.
End OrderedDictFacts.

(** ** The store monad *)

Lemma bind_Ok {A B} (m : M A) (k : A -> M B) s a s' :
  m s = Ok a s' -> bind m k s = k a s'.
Proof. unfold bind. by intros ->. Qed.

Lemma bind_Raise {A B} (m : M A) (k : A -> M B) s e s' :
  m s = Raise e s' -> bind m k s = Raise e s'.
Proof. unfold bind. by intros ->. Qed.

Lemma for_each_app {A} (l1 l2 : list A) (body : A -> M unit) s :
  for_each (l1 ++ l2) body s = (for_each l1 body ;;; for_each l2 body) s.
Proof.
  revert s. induction l1 as [|x l1 IH]; intros s; simpl.
  - done.
  - unfold bind in *. destruct (body x s); [apply IH | done].
Qed.

(** ** How the store evolves *)

Lemma same_but_marker_refl f : same_but_marker f f.
Proof. destruct f; simpl; auto. Qed.

Lemma same_but_marker_trans f1 f2 f3 :
  same_but_marker f1 f2 -> same_but_marker f2 f3 -> same_but_marker f1 f3.
Proof.
  destruct f1, f2, f3; simpl; try tauto; try congruence.
  intros (-> & -> & ->) (-> & -> & ->). auto.
Qed.

Lemma same_but_mapping_refl c : same_but_mapping c c.
Proof. unfold same_but_mapping. tauto. Qed.

Lemma same_but_mapping_trans c1 c2 c3 :
  same_but_mapping c1 c2 -> same_but_mapping c2 c3 -> same_but_mapping c1 c3.
Proof.
  unfold same_but_mapping.
  intros (-> & -> & -> & H1) (-> & -> & -> & H2). tauto.
Qed.

Lemma evolves_refl s : evolves s s.
Proof.
  unfold evolves. split_and!; try done.
  - intros f fld H. exists fld. split; [done | apply same_but_marker_refl].
  - intros c cls H. exists cls. split; [done | apply same_but_mapping_refl].
Qed.

Lemma evolves_trans s1 s2 s3 : evolves s1 s2 -> evolves s2 s3 -> evolves s1 s3.
Proof.
  intros (F1 & C1 & R1 & E1) (F2 & C2 & R2 & E2).
  unfold evolves. split_and!; try congruence.
  - intros f fld H. destruct (F1 _ _ H) as (fld' & H' & S1).
    destruct (F2 _ _ H') as (fld'' & H'' & S2).
    exists fld''. split; [done | by eapply same_but_marker_trans].
  - intros c cls H. destruct (C1 _ _ H) as (cls' & H' & S1).
    destruct (C2 _ _ H') as (cls'' & H'' & S2).
    exists cls''. split; [done | by eapply same_but_mapping_trans].
Qed.


Lemma evolving_ret {A} (a : A) : evolving (ret a).
Proof. intros s. apply evolves_refl. Qed.

Lemma evolving_raise {A} e : evolving (@raise A e).
Proof. intros s. apply evolves_refl. Qed.

Lemma evolving_bind {A B} (m : M A) (k : A -> M B) :
  evolving m -> (forall a, evolving (k a)) -> evolving (bind m k).
Proof.
  intros Hm Hk s. unfold bind. specialize (Hm s).
  destruct (m s) as [a s'|e s']; simpl in *; [|done].
  eapply evolves_trans; [done | apply Hk].
Qed.

Lemma evolving_for_each {A} (l : list A) (body : A -> M unit) :
  (forall x, evolving (body x)) -> evolving (for_each l body).
Proof.
  intros Hbody. induction l as [|x l IH]; simpl.
  - apply evolving_ret.
  - apply evolving_bind; auto.
Qed.

(** A computation that only reads the store. *)
Lemma evolving_read {A} (m : M A) :
  (forall s, final_state (m s) = s) -> evolving m.
Proof. intros H s. rewrite H. apply evolves_refl. Qed.

Lemma evolving_new_field f : evolving (new_field f).
Proof.
  intros s. unfold new_field, evolves. simpl. split_and!; try done.
  - intros f0 fld H. exists fld.
    split; [by apply lookup_app_l_Some | apply same_but_marker_refl].
  - intros c cls H. exists cls. split; [done | apply same_but_mapping_refl].
Qed.

Lemma evolving_new_class c : evolving (new_class c).
Proof.
  intros s. unfold new_class, evolves. simpl. split_and!; try done.
  - intros f0 fld H. exists fld. split; [done | apply same_but_marker_refl].
  - intros c0 cls H. exists cls.
    split; [by apply lookup_app_l_Some | apply same_but_mapping_refl].
Qed.

Lemma evolving_read_relationship f : evolving (read_relationship f).
Proof.
  apply evolving_read. intros s. unfold read_relationship.
  by repeat case_match.
Qed.

Lemma evolving_class_name c : evolving (class_name c).
Proof.
  apply evolving_read. intros s. unfold class_name. by repeat case_match.
Qed.

Lemma evolving_mapping_getitem c name : evolving (mapping_getitem c name).
Proof.
  apply evolving_read. intros s. unfold mapping_getitem.
  by repeat case_match.
Qed.

Lemma evolving__doc_class r : evolving (_doc_class r).
Proof.
  apply evolving_read. intros s. unfold _doc_class. by repeat case_match.
Qed.

Lemma evolving__relationships c : evolving (_relationships c).
Proof.
  apply evolving_read. intros s. unfold _relationships.
  by repeat case_match.
Qed.

Lemma evolving_pop_name d : evolving (pop_name d).
Proof.
  unfold pop_name. repeat case_match;
    (apply evolving_ret || apply evolving_raise).
Qed.

Lemma evolving_set_back_populates f name : evolving (set_back_populates f name).
Proof.
  intros s. unfold set_back_populates.
  destruct (field_heap s !! f) as [[t|r]|] eqn:Hf; simpl;
    try apply evolves_refl.
  unfold evolves. simpl. split_and!; try done.
  - intros f0 fld H. destruct (decide (f = f0)) as [<-|Hne].
    + rewrite list_lookup_insert_eq by (by eapply lookup_lt_Some).
      eexists. split; [done|]. rewrite Hf in H. injection H as <-.
      simpl. auto.
    + rewrite list_lookup_insert_ne by done.
      exists fld. split; [done | apply same_but_marker_refl].
  - intros c cls H. exists cls. split; [done | apply same_but_mapping_refl].
Qed.

Lemma evolving_mapping_field c name f : evolving (mapping_field c name f).
Proof.
  intros s. unfold mapping_field.
  destruct (class_heap s !! c) as [cls|] eqn:Hc; simpl;
    [|apply evolves_refl].
  destruct (_doc_type cls) as [m|] eqn:Hm; simpl; [|apply evolves_refl].
  unfold evolves. simpl. split_and!; try done.
  - intros f0 fld H. exists fld. split; [done | apply same_but_marker_refl].
  - intros c0 cls0 H. destruct (decide (c = c0)) as [<-|Hne].
    + rewrite list_lookup_insert_eq by (by eapply lookup_lt_Some).
      eexists. split; [done|]. rewrite Hc in H. injection H as <-.
      unfold same_but_mapping. simpl. rewrite Hm.
      split_and!; try done.
    + rewrite list_lookup_insert_ne by done.
      exists cls0. split; [done | apply same_but_mapping_refl].
Qed.

Lemma evolving_backref_body c name : evolving (backref_body c name).
Proof.
  unfold backref_body.
  apply evolving_bind; [apply evolving_mapping_getitem | intros field].
  apply evolving_bind; [apply evolving_read_relationship | intros r].
  destruct (negb (truthy (_backref_kwargs r))); [apply evolving_ret|].
  apply evolving_bind; [apply evolving__doc_class | intros target].
  apply evolving_bind; [apply evolving_pop_name | intros popped].
  apply evolving_bind; [apply evolving_class_name | intros new_name].
  apply evolving_bind; [apply evolving_new_field | intros backref_field].
  apply evolving_bind; [apply evolving_set_back_populates | intros _].
  apply evolving_bind; [apply evolving_mapping_field | intros _].
  apply evolving_set_back_populates.
Qed.

Lemma evolving_generate_backrefs c : evolving (generate_backrefs c).
Proof.
  unfold generate_backrefs.
  apply evolving_bind; [apply evolving__relationships | intros names].
  apply evolving_for_each. intros name. apply evolving_backref_body.
Qed.

(** ** The registry *)

Lemma registry_named_evolves s s' :
  registry_named s -> evolves s s' -> registry_named s'.
Proof.
  intros Hs (_ & HC & HR & _) name c Hreg. rewrite HR in Hreg.
  destruct (Hs _ _ Hreg) as (cls & Hc & Hname).
  destruct (HC _ _ Hc) as (cls' & Hc' & Hn & _).
  exists cls'. split; [done | congruence].
Qed.

Lemma registry_named_register c s s' :
  registry_named s -> register c s = Ok tt s' -> registry_named s'.
Proof.
  unfold register, bind, class_name.
  destruct (class_heap s !! c) as [cls|] eqn:Hc; [|done].
  intros Hs [= <-] name c0. simpl.
  destruct (decide (cls_name cls = name)) as [<-|Hne].
  - rewrite lookup_insert_eq. intros [= <-]. eauto.
  - rewrite lookup_insert_ne by done. apply Hs.
Qed.

Lemma register_final_state c s :
  final_state (register c s) = s
  \/ exists s', register c s = Ok tt s'.
Proof.
  unfold register, bind, class_name.
  destruct (class_heap s !! c); simpl; eauto.
Qed.

(** The outcome of a class declaration, stage by stage. *)
Lemma DocTypeMeta_new_stages name bases attrs s :
  DocTypeMeta_new name bases attrs s
  = (new_class <- ESDocTypeMeta_new (inherit_fields s name bases attrs).1
                    bases (inherit_fields s name bases attrs).2 ;;
     generate_backrefs new_class ;;;
     register new_class ;;;
     ret new_class) s.
Proof.
  unfold DocTypeMeta_new, RegisteredDocMixin_new,
    NonDocumentInheritanceMixin_new, BackrefGeneratingDocMixin_new.
  destruct (inherit_fields s name bases attrs) as [name' attrs'] eqn:Hi.
  unfold bind at 1 3. rewrite Hi. simpl.
  unfold bind.
  destruct (ESDocTypeMeta_new name' bases attrs' s) as [c s1|e s1]; [|done].
  destruct (generate_backrefs c s1) as [[] s2|e s2]; [|done].
  simpl. done.
Qed.

Lemma evolving_ESDocTypeMeta_new name bases attrs :
  evolving (ESDocTypeMeta_new name bases attrs).
Proof. intros s. unfold ESDocTypeMeta_new. apply evolving_new_class. Qed.

Lemma registry_named_DocTypeMeta_new name bases attrs s :
  registry_named s ->
  registry_named (final_state (DocTypeMeta_new name bases attrs s)).
Proof.
  intros Hs. rewrite DocTypeMeta_new_stages.
  destruct (inherit_fields s name bases attrs) as [name' attrs']. simpl.
  unfold bind.
  pose proof (evolving_ESDocTypeMeta_new name' bases attrs' s) as H1.
  destruct (ESDocTypeMeta_new name' bases attrs' s) as [c s1|e s1];
    simpl in *; [|by eapply registry_named_evolves].
  pose proof (evolving_generate_backrefs c s1) as H2.
  assert (registry_named (final_state (generate_backrefs c s1))) as Hs2.
  { eapply registry_named_evolves; [|done]. by eapply registry_named_evolves. }
  destruct (generate_backrefs c s1) as [[] s2|e s2]; simpl in *; [|done].
  destruct (register_final_state c s2) as [Heq|[s3 Heq]].
  - destruct (register c s2); simpl in *; by subst.
  - rewrite Heq. simpl. by eapply registry_named_register.
Qed.

Lemma registry_named_run_call s c :
  registry_named s -> registry_named (run_call s c).
Proof.
  intros Hs. destruct c as [f|name bases attrs|name bases attrs|name|i dc];
    simpl.
  - eapply registry_named_evolves; [done | apply evolving_new_field].
  - eapply registry_named_evolves; [done | apply evolving_new_class].
  - by apply registry_named_DocTypeMeta_new.
  - unfold get_document_cls. by repeat case_match.
  - unfold create_index, bind, Index_create.
    destruct dc; simpl; repeat case_match; simpl; done.
Qed.

Lemma registry_named_reachable s : reachable s -> registry_named s.
Proof.
  intros [calls ->]. unfold run.
  assert (registry_named initial_state) as H0.
  { intros name c H. simpl in H. by rewrite lookup_empty in H. }
  revert H0. generalize initial_state.
  induction calls as [|c calls IH]; intros s Hs; simpl; [done|].
  apply IH. by apply registry_named_run_call.
Qed.

(** C6: for every class [c] present in the registry of a reachable store,
    looking up the name of [c] returns [c] itself and leaves the store as
    it is, so that a repeated lookup returns [c] again. *)
Theorem get_document_cls_registered s name c :
  reachable s ->
  _document_registry s !! name = Some c ->
  exists cls,
    class_heap s !! c = Some cls
    /\ get_document_cls (cls_name cls) s = Ok c s
    /\ (get_document_cls (cls_name cls) ;;; get_document_cls (cls_name cls)) s
       = Ok c s.
Proof.
  intros Hreach Hreg.
  destruct (registry_named_reachable _ Hreach _ _ Hreg) as (cls & Hc & <-).
  exists cls. unfold bind, get_document_cls. rewrite !Hreg. auto.
Qed.

Lemma get_document_cls_registered_witness :
  exists cls,
    class_heap author_book !! 1 = Some cls
    /\ get_document_cls (cls_name cls) author_book = Ok 1 author_book
    /\ (get_document_cls (cls_name cls) ;;; get_document_cls (cls_name cls))
         author_book = Ok 1 author_book.
Proof.
  apply (get_document_cls_registered author_book "Book" 1).
  - by eexists.
  - vm_compute. reflexivity.
Defined.

(** C7: looking up a name that is not in the registry raises [KeyError]
    at once, and the store is the one the lookup started from. *)
Theorem get_document_cls_unknown s name :
  _document_registry s !! name = None ->
  get_document_cls name s = Raise (KeyError name) s.
Proof. intros H. unfold get_document_cls. by rewrite H. Qed.

Lemma get_document_cls_unknown_witness :
  get_document_cls "DoesNotExist" author_book
  = Raise (KeyError "DoesNotExist") author_book.
Proof.
  apply (get_document_cls_unknown author_book "DoesNotExist").
  vm_compute. reflexivity.
Defined.

(** ** Index creation *)

Lemma fold_Index_doc_type l index :
  fold_left Index_doc_type l index
  = {| index_name := index_name index;
       index_doc_types := index_doc_types index ++ l |}.
Proof.
  revert index. induction l as [|c l IH]; intros [n dt]; simpl.
  - by rewrite app_nil_r.
  - rewrite IH. simpl. by rewrite <- app_assoc.
Qed.

Lemma elem_of_values {V} (d : gmap string V) (v : V) :
  v ∈ values d <-> exists k, d !! k = Some v.
Proof.
  unfold values. rewrite list_elem_of_fmap. split.
  - intros ([k v'] & -> & Hin). exists k. by apply elem_of_map_to_list.
  - intros [k Hk]. exists (k, v). split; [done|].
    by apply elem_of_map_to_list.
Qed.

(** C9: called without a class list, [create_index] asks the cluster to
    create an index named [name] whose document classes are exactly
    the classes in the registry at the time of the call. *)
Theorem create_index_default_scope name s :
  exists index,
    create_index name None s = Index_create index s
    /\ index_name index = name
    /\ index_doc_types index = values (_document_registry s)
    /\ forall c, c ∈ index_doc_types index
                 <-> exists name, _document_registry s !! name = Some c.
Proof.
  exists (fold_left Index_doc_type (values (_document_registry s))
            (Index_init name)).
  split; [done|]. rewrite fold_Index_doc_type. simpl.
  split_and!; try done. intros c. apply elem_of_values.
Qed.

(** ** Backref synthesis: what it leaves alone *)

Lemma _relationships_Ok c s m :
  base_mapping s c = Some m ->
  exists names,
    _relationships c s = Ok names s
    /\ forall name, name ∈ names ->
         exists f r, OrderedDict.get name m = Some f
                     /\ field_heap s !! f = Some (RelField r).
Proof.
  unfold base_mapping, _relationships. intros ->.
  eexists. split; [reflexivity|]. intros name Hin.
  apply list_elem_of_filter in Hin as [Hrel _].
  destruct (OrderedDict.get name m) as [f|]; [|done].
  unfold isinstance_Relationship in Hrel.
  destruct (field_heap s !! f) as [[t|r]|] eqn:Hf; try done. eauto.
Qed.

Lemma backref_body_skip c name f r m s :
  base_mapping s c = Some m ->
  OrderedDict.get name m = Some f ->
  field_heap s !! f = Some (RelField r) ->
  truthy (_backref_kwargs r) = false ->
  backref_body c name s = Ok tt s.
Proof.
  unfold base_mapping. intros Hm Hget Hf Ht.
  unfold backref_body, bind, mapping_getitem, read_relationship.
  by rewrite Hm, Hget, Hf, Ht.
Qed.

(** C8: a relationship field that carries no inverse request is skipped:
    its turn of the loop returns with the store untouched, so nothing is
    added to the mapping of its target and no marker is set.  When no
    relationship field of the class carries a request, the whole synthesis
    leaves the store as it was. *)
Theorem no_request_no_mutation c s m :
  base_mapping s c = Some m ->
  (forall name f r,
      OrderedDict.get name m = Some f ->
      field_heap s !! f = Some (RelField r) ->
      truthy (_backref_kwargs r) = false ->
      backref_body c name s = Ok tt s)
  /\ ((forall name f, ~ carries_request s c name f) ->
      generate_backrefs c s = Ok tt s).
Proof.
  intros Hm. split.
  - intros name f r. by apply backref_body_skip.
  - intros Hnone. unfold generate_backrefs.
    destruct (_relationships_Ok c s m Hm) as (names & Hnames & Hall).
    rewrite (bind_Ok _ _ _ _ _ Hnames).
    clear Hnames. induction names as [|name names IH]; [done|].
    simpl. destruct (Hall name) as (f & r & Hget & Hf);
      [apply list_elem_of_here|].
    rewrite (bind_Ok _ _ s tt s).
    + apply IH. intros n Hn. apply Hall. by apply list_elem_of_further.
    + eapply backref_body_skip; try done.
      destruct (truthy (_backref_kwargs r)) eqn:Ht; [|done].
      exfalso. apply (Hnone name f). by exists m, r.
Qed.

Lemma no_request_no_mutation_witness :
  (forall name f r,
      OrderedDict.get name [("author", 0)] = Some f ->
      field_heap one_directional !! f = Some (RelField r) ->
      truthy (_backref_kwargs r) = false ->
      backref_body 1 name one_directional = Ok tt one_directional)
  /\ ((forall name f, ~ carries_request one_directional 1 name f) ->
      generate_backrefs 1 one_directional = Ok tt one_directional).
Proof.
  apply (no_request_no_mutation 1 one_directional [("author", 0)]).
  vm_compute. reflexivity.
Defined.

(** C10: whatever the outcome of backref synthesis, a relationship field
    that was in the store before is still there with the same inverse
    request (the entry "name" included), the same target and the same
    options; only its marker may differ. *)
Theorem backref_kwargs_untouched c s f r :
  field_heap s !! f = Some (RelField r) ->
  exists r',
    field_heap (final_state (generate_backrefs c s)) !! f = Some (RelField r')
    /\ _backref_kwargs r' = _backref_kwargs r
    /\ document r' = document r
    /\ options r' = options r.
Proof.
  intros Hf.
  destruct (evolving_generate_backrefs c s) as (HF & _).
  destruct (HF _ _ Hf) as ([t|r'] & Hf' & Hsame); simpl in Hsame; [done|].
  exists r'. tauto.
Qed.

Lemma backref_kwargs_untouched_witness :
  exists r',
    field_heap (final_state (generate_backrefs 1 book_finalized)) !! 0
    = Some (RelField r')
    /\ _backref_kwargs r'
       = Some (<["name" := KStr "books"]> (<["uselist" := KBool true]> ∅))
    /\ document r' = "Author"
    /\ options r' = ∅.
Proof.
  apply (backref_kwargs_untouched 1 book_finalized 0
           (mkRelationship "Author" ∅
              (Some (<["name" := KStr "books"]> (<["uselist" := KBool true]> ∅)))
              None)).
  vm_compute. reflexivity.
Defined.

(** ** The order of the stages *)

Lemma register_registry c s s' :
  register c s = Ok tt s' ->
  exists cls,
    class_heap s' !! c = Some cls
    /\ _document_registry s' = <[cls_name cls := c]> (_document_registry s).
Proof.
  unfold register, bind, class_name.
  destruct (class_heap s !! c) as [cls|] eqn:Hc; [|done].
  intros [= <-]. exists cls. simpl. auto.
Qed.

Lemma register_Raise c s e s' : register c s = Raise e s' -> s' = s.
Proof.
  unfold register, bind, class_name.
  destruct (class_heap s !! c); [done|]. by intros [= _ <-].
Qed.

(** The counterexample to C2 as stated: a document class whose
    relationship names a target that was never declared.  Backref
    synthesis raises, and the class cannot be looked up afterwards: it was
    not registered before the later stages ran. *)
Lemma registration_first_counterexample :
  match DocTypeMeta_new "Book" [] [("author", VField 0)]
          (run dangling_target) with
  | Raise e s' =>
      e = KeyError "Author"
      /\ (exists cls, class_heap s' !! 0 = Some cls /\ cls_name cls = "Book")
      /\ get_document_cls "Book" s' = Raise (KeyError "Book") s'
  | Ok _ _ => False
  end.
Proof. vm_compute. split_and!; [done | by eexists | done]. Qed.

(** C2, amended: one declaration runs the stages once, in the order
    field-inheritance merge, mapping foundation, backref synthesis,
    registry update.  Registration is the last step: when a stage raises
    the registry is the one the declaration started from, and when the
    declaration returns the registry has gained exactly the entry of the
    new class. *)
Theorem registration_comes_last name bases attrs s :
  DocTypeMeta_new name bases attrs s
  = (new_class <- ESDocTypeMeta_new (inherit_fields s name bases attrs).1
                    bases (inherit_fields s name bases attrs).2 ;;
     generate_backrefs new_class ;;;
     register new_class ;;;
     ret new_class) s
  /\ (forall e s', DocTypeMeta_new name bases attrs s = Raise e s' ->
        _document_registry s' = _document_registry s)
  /\ (forall c s', DocTypeMeta_new name bases attrs s = Ok c s' ->
        exists cls,
          class_heap s' !! c = Some cls
          /\ _document_registry s'
             = <[cls_name cls := c]> (_document_registry s)).
Proof.
  split; [apply DocTypeMeta_new_stages|].
  rewrite DocTypeMeta_new_stages.
  destruct (inherit_fields s name bases attrs) as [name' attrs']. simpl.
  unfold bind.
  pose proof (evolving_ESDocTypeMeta_new name' bases attrs' s) as H1.
  destruct (ESDocTypeMeta_new name' bases attrs' s) as [c s1|e s1];
    simpl in H1.
  2:{ split; [|done]. intros e' s' [= _ <-]. apply H1. }
  pose proof (evolving_generate_backrefs c s1) as H2.
  destruct (generate_backrefs c s1) as [[] s2|e s2]; simpl in H2.
  2:{ split; [|done]. intros e' s' [= _ <-].
      destruct H1 as (_ & _ & <- & _). apply H2. }
  assert (_document_registry s2 = _document_registry s) as Hreg.
  { destruct H1 as (_ & _ & <- & _). apply H2. }
  destruct (register c s2) as [[] s3|e s3] eqn:Hr; simpl.
  - split; [done|]. intros c' s' [= <- <-].
    destruct (register_registry _ _ _ Hr) as (cls & Hc & ->).
    exists cls. by rewrite Hreg.
  - split; [|done]. intros e' s' [= _ <-].
    by rewrite (register_Raise _ _ _ _ Hr).
Qed.

(** ** The name a class is registered under *)

(** C4 at the declaration [class Story(Mixin, BaseDocument)] where
    [Mixin] declares the field [f]: the class is built with the name [f],
    the registry files it under [f], and there is no entry [Story], so
    looking [Story] up raises [KeyError]. *)
Theorem story_registered_under_field_name :
  _document_registry (run story_program) !! "Story" = None
  /\ _document_registry (run story_program) !! "f" = Some 2
  /\ class_heap (run story_program) !! 2
     = Some {| cls_name := "f"; cls_bases := [0; 1]; cls_dict := [("f", VField 0)];
               _doc_type := Some [("f", 0)] |}
  /\ get_document_cls "Story" (run story_program)
     = Raise (KeyError "Story") (run story_program).
Proof. vm_compute. done. Qed.

(** ** Field inheritance from non-document bases *)

(** The inner loop over [base.__dict__]. *)
Lemma scan_dict_get key (d nondoc_fields : odict pyval) :
  NoDup (OrderedDict.keys d) ->
  OrderedDict.get key
    (fold_left (fun nondoc_fields kv =>
                  if isinstance_Field kv.2
                  then OrderedDict.set kv.1 kv.2 nondoc_fields
                  else nondoc_fields) d nondoc_fields)
  = match OrderedDict.get key d with
    | Some v => if isinstance_Field v then Some v
                else OrderedDict.get key nondoc_fields
    | None => OrderedDict.get key nondoc_fields
    end.
Proof.
  unfold OrderedDict.keys. revert nondoc_fields.
  induction d as [|[k v] d IH]; intros nd Hnd; [done|].
  rewrite fmap_cons in Hnd. apply NoDup_cons in Hnd as [Hk Hnd]. cbn [fst] in Hk.
  cbn [fold_left OrderedDict.get fst snd]. rewrite IH by done.
  destruct (decide (key = k)) as [->|Hne].
  - apply get_None_keys in Hk. rewrite Hk.
    destruct (isinstance_Field v); [apply get_set_eq | done].
  - destruct (isinstance_Field v); [|done].
    by rewrite get_set_ne by congruence.
Qed.

Lemma scan_dict_NoDup (d nondoc_fields : odict pyval) :
  NoDup (OrderedDict.keys nondoc_fields) ->
  NoDup (OrderedDict.keys
           (fold_left (fun nondoc_fields kv =>
                         if isinstance_Field kv.2
                         then OrderedDict.set kv.1 kv.2 nondoc_fields
                         else nondoc_fields) d nondoc_fields)).
Proof.
  revert nondoc_fields. induction d as [|[k v] d IH]; intros nd Hnd; [done|].
  simpl. apply IH. destruct (isinstance_Field v); [|done].
  by apply NoDup_keys_set.
Qed.

Lemma scan_base_get s acc base key val :
  NoDup (OrderedDict.keys (base_dict s base)) ->
  OrderedDict.get key (scan_base s acc base).1 = Some val
  <-> declares_field s base key val
      \/ ((forall v, ~ declares_field s base key v)
          /\ OrderedDict.get key acc.1 = Some val).
Proof.
  intros Hnd. destruct acc as [nd bdf]. unfold scan_base, declares_field.
  destruct (base_mapping s base) as [m|] eqn:Hm; simpl.
  - split; [|intros [[? _]|[_ ?]]; done].
    intros H. right. split; [|done]. by intros v [? _].
  - rewrite scan_dict_get by done.
    destruct (OrderedDict.get key (base_dict s base)) as [v|] eqn:Hget.
    + destruct (isinstance_Field v) eqn:Hv.
      * split.
        -- intros [= ->]. by left.
        -- intros [(_ & [= ->] & _)|[Hno _]]; [done|].
           exfalso. by apply (Hno v).
      * split.
        -- intros H. right. split; [|done].
           intros v' (_ & [= <-] & Hv'). congruence.
        -- intros [(_ & [= <-] & Hv')|[_ H]]; [congruence | done].
    + split.
      * intros H. right. split; [|done]. by intros v' (_ & ? & _).
      * intros [(_ & ? & _)|[_ H]]; done.
Qed.

Lemma scan_bases_fold_get s bases acc key val :
  Forall (fun base => NoDup (OrderedDict.keys (base_dict s base))) bases ->
  OrderedDict.get key (fold_left (scan_base s) bases acc).1 = Some val
  <-> (exists pre base post,
          bases = pre ++ base :: post
          /\ declares_field s base key val
          /\ forall b v, b ∈ post -> ~ declares_field s b key v)
      \/ (OrderedDict.get key acc.1 = Some val
          /\ forall b v, b ∈ bases -> ~ declares_field s b key v).
Proof.
  revert acc. induction bases as [|b bases IH]; intros acc Hnd.
  - simpl. split.
    + intros H. right. split; [done|]. intros b v Hb.
      by apply elem_of_nil in Hb.
    + intros [(pre & base & post & Heq & _)|[H _]]; [|done].
      by destruct pre.
  - apply Forall_cons in Hnd as [Hb Hnd]. simpl. rewrite IH by done.
    rewrite scan_base_get by done. split.
    + intros [(pre & base & post & -> & Hd & Hpost)
             |[[Hd|[Hno Hacc]] Hnone]].
      * left. by exists (b :: pre), base, post.
      * left. by exists [], b, bases.
      * right. split; [done|]. intros b' v Hb'.
        apply elem_of_cons in Hb' as [->|Hb']; [apply Hno | by apply Hnone].
    + intros [(pre & base & post & Heq & Hd & Hpost)|[Hacc Hnone]].
      * destruct pre as [|b' pre]; simpl in Heq.
        -- injection Heq as <- <-. right. split; [by left | done].
        -- injection Heq as <- ->. left. by exists pre, base, post.
      * right. split.
        -- right. split; [|done]. intros v. apply Hnone, list_elem_of_here.
        -- intros b' v Hb'. by apply Hnone, list_elem_of_further.
Qed.

(** C5: the candidate kept for a name is the field declared under it by
    the last non-document base, in the order of [bases], that declares a
    field of that name. *)
Theorem last_declared_base_wins s bases key val :
  Forall (fun base => NoDup (OrderedDict.keys (base_dict s base))) bases ->
  OrderedDict.get key (scan_bases s bases).1 = Some val
  <-> exists pre base post,
        bases = pre ++ base :: post
        /\ declares_field s base key val
        /\ forall b v, b ∈ post -> ~ declares_field s b key v.
Proof.
  intros Hnd. unfold scan_bases. rewrite scan_bases_fold_get by done.
  split; [|by left]. intros [H|[H _]]; done.
Qed.

Lemma last_declared_base_wins_witness :
  OrderedDict.get "f" (scan_bases two_mixins [0; 1]).1 = Some (VField 1)
  <-> exists pre base post,
        [0; 1] = pre ++ base :: post
        /\ declares_field two_mixins base "f" (VField 1)
        /\ forall b v, b ∈ post -> ~ declares_field two_mixins b "f" v.
Proof.
  apply (last_declared_base_wins two_mixins [0; 1] "f" (VField 1)).
  repeat constructor; vm_compute; set_solver.
Defined.

Lemma scan_bases_NoDup s bases :
  NoDup (OrderedDict.keys (scan_bases s bases).1).
Proof.
  unfold scan_bases.
  assert (NoDup (OrderedDict.keys (([] : odict pyval, [] : odict ref).1)))
    as H0 by apply NoDup_nil_2.
  revert H0. generalize ([] : odict pyval, [] : odict ref).
  induction bases as [|b bases IH]; intros [nd bdf] Hnd; [done|].
  simpl. apply IH. destruct (base_mapping s b); simpl; [done|].
  by apply scan_dict_NoDup.
Qed.

Lemma scan_bases_covered s bases key :
  OrderedDict.mem key (scan_bases s bases).2 = true <-> covered s bases key.
Proof.
  unfold scan_bases, covered.
  enough (forall acc,
    OrderedDict.mem key (fold_left (scan_base s) bases acc).2 = true
    <-> OrderedDict.mem key acc.2 = true
        \/ exists base mapping,
             base ∈ bases /\ base_mapping s base = Some mapping
             /\ OrderedDict.mem key mapping = true) as H.
  { rewrite H. simpl. split; [intros [?|?]; done | by right]. }
  induction bases as [|b bases IH]; intros [nd bdf]; simpl.
  - split; [by left|]. intros [?|(b & m & Hb & _)]; [done|].
    by apply elem_of_nil in Hb.
  - rewrite IH. destruct (base_mapping s b) as [m|] eqn:Hm; simpl.
    + unfold to_dict. rewrite mem_update, orb_true_iff. split.
      * intros [[?|Hk]|(b' & m' & Hb' & Hm' & Hk)].
        -- by left.
        -- right. exists b, m. split; [apply list_elem_of_here | done].
        -- right. exists b', m'. split; [by apply list_elem_of_further | done].
      * intros [?|(b' & m' & Hb' & Hm' & Hk)]; [by left; left|].
        apply elem_of_cons in Hb' as [->|Hb'].
        -- left. right. congruence.
        -- right. by exists b', m'.
    + split.
      * intros [?|(b' & m' & Hb' & Hm' & Hk)]; [by left|].
        right. exists b', m'. split; [by apply list_elem_of_further | done].
      * intros [?|(b' & m' & Hb' & Hm' & Hk)]; [by left|].
        apply elem_of_cons in Hb' as [->|Hb']; [congruence|].
        right. by exists b', m'.
Qed.

(** The loop over the candidates. *)
Lemma inherit_fold_get base_docs_fields items name attrs key :
  NoDup (OrderedDict.keys items) ->
  OrderedDict.get key
    (fold_left (inherit_step base_docs_fields) items (name, attrs)).2
  = match OrderedDict.get key attrs with
    | Some v => Some v
    | None => if OrderedDict.mem key base_docs_fields then None
              else OrderedDict.get key items
    end.
Proof.
  unfold OrderedDict.keys. revert name attrs.
  induction items as [|[k f] items IH]; intros name attrs Hnd.
  - simpl. by repeat case_match.
  - rewrite fmap_cons in Hnd. apply NoDup_cons in Hnd as [Hk Hnd]. cbn [fst] in Hk.
    cbn [fold_left inherit_step]. rewrite IH by done.
    cbn [OrderedDict.get]. apply get_None_keys in Hk.
    destruct (decide (key = k)) as [->|Hne].
    + rewrite Hk. unfold OrderedDict.mem at 1.
      destruct (OrderedDict.get k attrs) as [v|] eqn:Hget; simpl.
      * by rewrite Hget.
      * destruct (OrderedDict.mem k base_docs_fields); simpl.
        -- by rewrite Hget.
        -- by rewrite get_set_eq.
    + destruct (negb (OrderedDict.mem k attrs)
                && negb (OrderedDict.mem k base_docs_fields)); [|done].
      by rewrite get_set_ne by congruence.
Qed.

(** The name handed on: the loop variable, when the loop ran at all. *)
Lemma inherit_fold_name base_docs_fields items name attrs :
  (fold_left (inherit_step base_docs_fields) items (name, attrs)).1
  = default name (last (OrderedDict.keys items)).
Proof.
  unfold OrderedDict.keys. revert name attrs.
  induction items as [|[k f] items IH]; intros name attrs; [done|].
  cbn [fold_left inherit_step]. rewrite IH, fmap_cons, last_cons.
  cbn [fst]. by destruct (last _).
Qed.

Lemma inherit_fields_name s name bases attrs :
  (inherit_fields s name bases attrs).1
  = default name (last (OrderedDict.keys (scan_bases s bases).1)).
Proof.
  unfold inherit_fields. destruct (scan_bases s bases) as [nd bdf].
  apply inherit_fold_name.
Qed.

(** C3: a candidate field is copied into the attributes handed to the
    foundation exactly when the class body binds nothing to its name and
    no document-typed base has the name in its mapping; a name the class
    body binds keeps its value, and a name covered by a document-typed
    base is left as the class body has it. *)
Theorem field_inherited_iff s name bases attrs key field :
  OrderedDict.get key (scan_bases s bases).1 = Some field ->
  let attrs' := (inherit_fields s name bases attrs).2 in
  ((OrderedDict.get key attrs = None /\ OrderedDict.get key attrs' = Some field)
   <-> (OrderedDict.mem key attrs = false /\ ~ covered s bases key))
  /\ (forall v, OrderedDict.get key attrs = Some v ->
                OrderedDict.get key attrs' = Some v)
  /\ (covered s bases key ->
      OrderedDict.get key attrs' = OrderedDict.get key attrs).
Proof.
  intros Hcand attrs'. subst attrs'. unfold inherit_fields.
  pose proof (scan_bases_NoDup s bases) as Hnd.
  pose proof (scan_bases_covered s bases key) as Hcov.
  destruct (scan_bases s bases) as [nd bdf]. simpl in *.
  rewrite inherit_fold_get by done. unfold OrderedDict.mem at 2.
  destruct (OrderedDict.get key attrs) as [v|] eqn:Hget.
  - split_and!.
    + split; intros [? _]; done.
    + done.
    + done.
  - rewrite Hcand. destruct (OrderedDict.mem key bdf) eqn:Hmem.
    + split_and!; [|done|done].
      split; [intros [_ ?]; done|]. intros [_ Hn]. exfalso. by apply Hn, Hcov.
    + split_and!; [|done|].
      * split; [|done]. intros _. split; [done|].
        intros Hc. apply Hcov in Hc. congruence.
      * intros Hc. apply Hcov in Hc. congruence.
Qed.

Lemma field_inherited_iff_witness :
  let attrs' := (inherit_fields two_mixins "Story" [0; 1] []).2 in
  ((OrderedDict.get "f" ([] : odict pyval) = None
    /\ OrderedDict.get "f" attrs' = Some (VField 1))
   <-> (OrderedDict.mem "f" ([] : odict pyval) = false
        /\ ~ covered two_mixins [0; 1] "f"))
  /\ (forall v, OrderedDict.get "f" ([] : odict pyval) = Some v ->
                OrderedDict.get "f" attrs' = Some v)
  /\ (covered two_mixins [0; 1] "f" ->
      OrderedDict.get "f" attrs' = OrderedDict.get "f" ([] : odict pyval)).
Proof.
  apply (field_inherited_iff two_mixins "Story" [0; 1] [] "f" (VField 1)).
  vm_compute. reflexivity.
Defined.

(** ** Backref synthesis: the pairs it builds *)

Lemma plan_of_Request s c name f target field_name :
  plan_of s c name = Request f target field_name ->
  exists m r d tm,
    base_mapping s c = Some m /\ OrderedDict.get name m = Some f
    /\ field_heap s !! f = Some (RelField r)
    /\ _backref_kwargs r = Some d /\ truthy (Some d) = true
    /\ d !! "name" = Some (KStr field_name)
    /\ _document_registry s !! document r = Some target
    /\ base_mapping s target = Some tm.
Proof.
  unfold plan_of.
  destruct (base_mapping s c) as [m|] eqn:Hm; [|done]. simpl.
  destruct (OrderedDict.get name m) as [f0|] eqn:Hget; [|done].
  destruct (field_heap s !! f0) as [[t|r]|] eqn:Hf; try done.
  destruct (truthy (_backref_kwargs r)) eqn:Ht; [|done].
  destruct (_document_registry s !! document r) as [t|] eqn:Hreg; [|done].
  destruct (_backref_kwargs r) as [d|] eqn:Hd; [|done]. simpl.
  destruct (d !! "name") as [[fn|b]|] eqn:Hname; try done.
  destruct (base_mapping s t) as [tm|] eqn:Htm; [|done].
  intros [= <- <- <-]. by exists m, r, d, tm.
Qed.

Lemma plan_of_NoRequest s c name :
  plan_of s c name = NoRequest ->
  exists m f r,
    base_mapping s c = Some m /\ OrderedDict.get name m = Some f
    /\ field_heap s !! f = Some (RelField r)
    /\ truthy (_backref_kwargs r) = false.
Proof.
  unfold plan_of.
  destruct (base_mapping s c) as [m|] eqn:Hm; [|done]. simpl.
  destruct (OrderedDict.get name m) as [f0|] eqn:Hget; [|done].
  destruct (field_heap s !! f0) as [[t|r]|] eqn:Hf; try done.
  destruct (truthy (_backref_kwargs r)) eqn:Ht.
  - by repeat case_match.
  - intros _. by exists m, f0, r.
Qed.

(** Later stores agree with the first one on what each field asks. *)
Lemma plan_of_stable s0 s c name :
  evolves s0 s ->
  base_mapping s c = base_mapping s0 c ->
  plan_of s0 c name <> Malformed ->
  plan_of s c name = plan_of s0 c name.
Proof.
  intros (HF & HC & HR & _) Hc. unfold plan_of. rewrite Hc, HR.
  destruct (base_mapping s0 c ≫= OrderedDict.get name) as [f|]; [|done].
  destruct (field_heap s0 !! f) as [fld|] eqn:Hf; [|done].
  destruct (HF _ _ Hf) as (fld' & -> & Hsame).
  destruct fld as [t|r], fld' as [t'|r']; simpl in Hsame; try done.
  destruct Hsame as (-> & _ & ->).
  destruct (truthy (_backref_kwargs r)); [|done].
  destruct (_document_registry s0 !! document r) as [t|]; [|done].
  destruct (default ∅ (_backref_kwargs r) !! "name") as [[fn|b]|]; try done.
  unfold base_mapping.
  destruct (class_heap s0 !! t) as [tcls|] eqn:Ht; [|done].
  destruct (HC _ _ Ht) as (tcls' & -> & _ & _ & _ & Hsome). simpl.
  destruct (_doc_type tcls) as [tm|]; [|done].
  destruct (proj1 Hsome) as [tm' ->]; done.
Qed.

(** One turn of the loop on a field that carries a well-formed request. *)
Lemma backref_body_Request c name s f target field_name :
  plan_of s c name = Request f target field_name ->
  exists r cls tcls tm kw s',
    field_heap s !! f = Some (RelField r)
    /\ class_heap s !! c = Some cls
    /\ class_heap s !! target = Some tcls /\ _doc_type tcls = Some tm
    /\ backref_body c name s = Ok tt s'
    /\ field_heap s'
       = <[f := RelField (mkRelationship (document r) (options r)
                            (_backref_kwargs r) (Some field_name))]>
           (<[length (field_heap s) :=
                RelField (mkRelationship (cls_name cls) kw None (Some name))]>
              (field_heap s ++ [RelField (Relationship_init (cls_name cls) kw)]))
    /\ class_heap s'
       = <[target := mkClass (cls_name tcls) (cls_bases tcls) (cls_dict tcls)
                       (Some (OrderedDict.set field_name
                                (length (field_heap s)) tm))]>
           (class_heap s).
Proof.
  intros Hplan.
  destruct (plan_of_Request _ _ _ _ _ _ Hplan)
    as (m & r & d & tm & Hm & Hget & Hf & Hd & Ht & Hname & Hreg & Htm).
  unfold base_mapping in Hm, Htm.
  destruct (class_heap s !! c) as [cls|] eqn:Hc; [|done].
  destruct (class_heap s !! target) as [tcls|] eqn:Htc; [|done].
  simpl in Hm, Htm.
  exists r, cls, tcls, tm, (setdefault "uselist" (KBool false) (delete "name" d)).
  eexists. split_and!; try done.
  - unfold backref_body.
    rewrite (bind_Ok _ _ s f s)
      by (unfold mapping_getitem; by rewrite Hc; simpl; rewrite Hm, Hget).
    rewrite (bind_Ok _ _ s r s) by (unfold read_relationship; by rewrite Hf).
    rewrite Hd, Ht. cbn [negb from_option id].
    rewrite (bind_Ok _ _ s target s) by (unfold _doc_class; by rewrite Hreg).
    rewrite (bind_Ok _ _ s (field_name, delete "name" d) s)
      by (unfold pop_name; by rewrite Hname).
    rewrite (bind_Ok _ _ s (cls_name cls) s)
      by (unfold class_name; by rewrite Hc).
    cbn [fst snd]. unfold bind, new_field, set_back_populates, mapping_field.
    cbn [field_heap class_heap with_fields with_classes].
    rewrite list_lookup_middle by done. cbn [Relationship_init].
    cbn [field_heap class_heap with_fields with_classes document options
           _backref_kwargs _back_populates].
    rewrite Htc, Htm.
    cbn [field_heap class_heap with_fields with_classes].
    rewrite list_lookup_insert_ne
      by (apply lookup_lt_Some in Hf; lia).
    rewrite (lookup_app_l_Some _ _ _ _ Hf). reflexivity.
  - done.
  - done.
Qed.

Lemma backref_body_NoRequest c name s :
  plan_of s c name = NoRequest -> backref_body c name s = Ok tt s.
Proof.
  intros H. destruct (plan_of_NoRequest _ _ _ H) as (m & f & r & ? & ? & ? & ?).
  by eapply backref_body_skip.
Qed.

(** The loop, on the names processed so far. *)
Lemma for_each_backref_body c s0 names :
  Forall (fun name => plan_of s0 c name <> Malformed) names ->
  Forall (fun tf => tf.1 <> c) (omap plan_target (plan_of s0 c <$> names)) ->
  NoDup (omap plan_target (plan_of s0 c <$> names)) ->
  exists s,
    for_each names (backref_body c) s0 = Ok tt s
    /\ evolves s0 s
    /\ base_mapping s c = base_mapping s0 c
    /\ length (field_heap s0) <= length (field_heap s)
    /\ forall name f target field_name,
         name ∈ names ->
         plan_of s0 c name = Request f target field_name ->
         synthesized_pair s0 s target field_name f name.
Proof.
  induction names as [|x names IH] using rev_ind; intros Hwf Hself Hnd.
  - exists s0. split_and!; try done; [apply evolves_refl|].
    intros ???? Hin. by apply elem_of_nil in Hin.
  - rewrite fmap_app, omap_app in Hself, Hnd.
    apply Forall_app in Hwf as [Hwf Hx], Hself as [Hself Hxself].
    apply Forall_inv in Hx.
    apply NoDup_app in Hnd as (Hnd & Hfresh & _).
    destruct (IH Hwf Hself Hnd) as (s1 & Hrun & Hev & Hc & Hlen & Hpairs).
    rewrite for_each_app, (bind_Ok _ _ _ _ _ Hrun). simpl.
    pose proof (plan_of_stable s0 s1 c x Hev Hc Hx) as Hplan.
    destruct (plan_of s0 c x) as [|f target field_name|] eqn:Hplan0; [| |done].
    + (* nothing asked: the turn is skipped *)
      rewrite (bind_Ok _ _ s1 tt s1) by (by apply backref_body_NoRequest).
      exists s1. split_and!; try done.
      intros name f target field_name Hin Hreq.
      apply elem_of_app in Hin as [Hin|Hin]; [by eapply Hpairs|].
      apply list_elem_of_singleton in Hin as ->. congruence.
    + (* a request: the counterpart is built and both markers set *)
      simpl in Hxself, Hfresh. rewrite Hplan0 in Hxself, Hfresh.
      simpl in Hxself, Hfresh. apply Forall_inv in Hxself.
      simpl in Hxself.
      destruct (backref_body_Request _ _ _ _ _ _ Hplan)
        as (r & cls & tcls & tm & kw & s2 & Hf & Hcls & Htc & Htm
            & Hbody & Hfh & Hch).
      pose proof (evolving_backref_body c x s1) as Hev2.
      rewrite Hbody in Hev2. simpl in Hev2.
      rewrite (bind_Ok _ _ _ _ _ Hbody). exists s2.
      assert (f < length (field_heap s0)) as Hf0.
      { destruct (plan_of_Request _ _ _ _ _ _ Hplan0)
          as (_ & r0 & _ & _ & _ & _ & Hf0 & _).
        by eapply lookup_lt_Some. }
      assert (length (field_heap s2) = S (length (field_heap s1))) as Hlen2.
      { rewrite Hfh, !length_insert, length_app. simpl. lia. }
      split_and!; try done.
      * by eapply evolves_trans.
      * rewrite <- Hc. unfold base_mapping. rewrite Hch.
        by rewrite list_lookup_insert_ne.
      * lia.
      * intros name f' target' field_name' Hin Hreq.
        apply elem_of_app in Hin as [Hin|Hin].
        -- (* an earlier pair survives this turn *)
           destruct (Hpairs _ _ _ _ Hin Hreq)
             as (tm' & bf & br & r' & Htm' & Hbf & Hge & Hbr & Hmark
                 & Hf' & Hmark').
           assert ((target', field_name') <> (target, field_name)) as Hne.
           { intros [= -> ->]. apply (Hfresh (target, field_name)).
             - apply list_elem_of_omap. exists (plan_of s0 c name).
               split; [|by rewrite Hreq].
               apply list_elem_of_fmap. by exists name.
             - apply list_elem_of_here. }
           assert (f' <> f) as Hff.
           { intros ->. apply Hne.
             destruct (plan_of_Request _ _ _ _ _ _ Hreq)
               as (_ & r1 & d1 & _ & _ & _ & Hf1 & Hd1 & _ & Hn1 & Hr1 & _).
             destruct (plan_of_Request _ _ _ _ _ _ Hplan0)
               as (_ & r2 & d2 & _ & _ & _ & Hf2 & Hd2 & _ & Hn2 & Hr2 & _).
             rewrite Hf1 in Hf2. injection Hf2 as <-.
             rewrite Hd1 in Hd2. injection Hd2 as <-.
             rewrite Hn1 in Hn2. rewrite Hr1 in Hr2. congruence. }
           assert (bf < length (field_heap s1)) as Hbf1
             by (by eapply lookup_lt_Some).
           assert (f' < length (field_heap s1)) as Hf'1
             by (by eapply lookup_lt_Some).
           assert (exists tm'',
                     base_mapping s2 target' = Some tm''
                     /\ OrderedDict.get field_name' tm'' = Some bf)
             as (tm'' & Htm'' & Hbf'').
           { unfold base_mapping in *. rewrite Hch.
             destruct (decide (target = target')) as [<-|Hnt].
             - rewrite list_lookup_insert_eq by (by eapply lookup_lt_Some).
               simpl. eexists. split; [done|].
               rewrite Htc in Htm'. simpl in Htm'.
               rewrite Htm in Htm'. injection Htm' as <-.
               rewrite get_set_ne; [done | congruence].
             - rewrite list_lookup_insert_ne by done. eauto. }
           exists tm'', bf, br, r'. split_and!; try done.
           ++ rewrite Hfh, list_lookup_insert_ne by lia.
              rewrite list_lookup_insert_ne by lia.
              by apply lookup_app_l_Some.
           ++ rewrite Hfh, list_lookup_insert_ne by done.
              rewrite list_lookup_insert_ne by lia.
              by apply lookup_app_l_Some.
        -- (* the pair of this turn *)
           apply list_elem_of_singleton in Hin as ->.
           rewrite Hplan0 in Hreq. injection Hreq as <- <- <-.
           assert (f < length (field_heap s1)) as Hf1
             by (by eapply lookup_lt_Some).
           eexists _, (length (field_heap s1)), _, _. split_and!.
           ++ unfold base_mapping. rewrite Hch.
              rewrite list_lookup_insert_eq by (by eapply lookup_lt_Some).
              done.
           ++ apply get_set_eq.
           ++ lia.
           ++ rewrite Hfh, list_lookup_insert_ne by lia.
              rewrite list_lookup_insert_eq; [done|].
              rewrite length_app. simpl. lia.
           ++ done.
           ++ rewrite Hfh, list_lookup_insert_eq; [done|].
              rewrite length_insert, length_app. lia.
           ++ done.
Qed.

Lemma synthesized_pair_symmetric s s' target field_name f name :
  synthesized_pair s s' target field_name f name ->
  symmetric_pair s' target field_name f name.
Proof.
  intros (tm & bf & br & r' & ? & ? & _ & ? & ? & ? & ?).
  by exists tm, bf, br, r'.
Qed.

Lemma carries_request_relationship s c name f m :
  base_mapping s c = Some m ->
  carries_request s c name f ->
  name ∈ filter (fun name =>
                   match OrderedDict.get name m with
                   | Some f => isinstance_Relationship s f
                   | None => false
                   end = true) (OrderedDict.keys m).
Proof.
  intros Hm (m' & r & Hm' & Hget & Hf & _).
  rewrite Hm in Hm'. injection Hm' as <-.
  apply list_elem_of_filter. split.
  - rewrite Hget. unfold isinstance_Relationship. by rewrite Hf.
  - unfold OrderedDict.keys. apply list_elem_of_fmap.
    exists (name, f). split; [done | by apply get_Some_elem_of].
Qed.

Lemma carries_request_plan s c name f :
  carries_request s c name f ->
  plan_of s c name <> Malformed ->
  exists target field_name,
    plan_of s c name = Request f target field_name
    /\ requests s c name f target field_name.
Proof.
  intros (m & r & Hm & Hget & Hf & Ht). unfold plan_of, requests.
  rewrite Hm. simpl. rewrite Hget, Hf, Ht.
  destruct (_backref_kwargs r) as [d|] eqn:Hd; [|done]. simpl.
  destruct (_document_registry s !! document r) as [t|] eqn:Hreg; [|done].
  destruct (d !! "name") as [[fn|b]|] eqn:Hname; try done.
  destruct (base_mapping s t) as [tm|]; [|done].
  intros _. exists t, fn. split; [done|].
  exists m, r, d. by rewrite Hd.
Qed.

(** The counterexample to C1 as stated: the class [N] has two
    relationships, [a] and [b], that both ask for the backref [x] on [T].
    Synthesis succeeds, and the field left under [x] is the counterpart of
    [b]: its marker is not [a]. *)
Lemma backref_symmetry_counterexample :
  match generate_backrefs 1 colliding with
  | Ok _ s' =>
      carries_request colliding 1 "a" 0
      /\ forall target field_name,
           requests colliding 1 "a" 0 target field_name ->
           ~ symmetric_pair s' target field_name 0 "a"
  | Raise _ _ => False
  end.
Proof.
  destruct (generate_backrefs 1 colliding) as [[] s'|e s'] eqn:Hrun;
    vm_compute in Hrun; [|done].
  injection Hrun as <-. split.
  - eexists _, _. split_and!; try (vm_compute; reflexivity).
  - intros target field_name (m & r & d & Hm & _ & Hf & Hd & _ & Hname & Hreg).
    vm_compute in Hf. injection Hf as <-.
    vm_compute in Hd. injection Hd as <-.
    vm_compute in Hname. injection Hname as <-.
    vm_compute in Hreg. injection Hreg as <-.
    intros (tm & bf & br & r' & Htm & Hbf & Hbr & Hmark & _).
    vm_compute in Htm. injection Htm as <-.
    vm_compute in Hbf. injection Hbf as <-.
    vm_compute in Hbr. injection Hbr as <-.
    vm_compute in Hmark. done.
Qed.

(** C1, amended: when the requests of the new class are well formed
    (each names, as a string, a field on a registered target class that
    has a mapping and is not the new class itself) and no two of them ask
    for the same field name on the same target, backref synthesis
    completes, and afterwards every relationship field of the class that
    carries a request has a counterpart in the mapping of its target under
    the requested name, the counterpart's marker is the name of the
    field, and the field's marker is the requested name. *)
Theorem backref_symmetry c s :
  well_formed_requests s c = true ->
  exists s',
    generate_backrefs c s = Ok tt s'
    /\ forall name f,
         carries_request s c name f ->
         exists target field_name,
           requests s c name f target field_name
           /\ symmetric_pair s' target field_name f name.
Proof.
  unfold well_formed_requests, generate_backrefs.
  destruct (_relationships c s) as [names s1|e s1] eqn:Hrel; [|done].
  assert (s1 = s) as ->.
  { unfold _relationships in Hrel. repeat case_match; congruence. }
  rewrite !andb_true_iff. intros [[Hwf Hself] Hnd].
  apply bool_decide_eq_true in Hnd.
  rewrite forallb_forall in Hwf, Hself.
  destruct (for_each_backref_body c s names) as (s' & Hrun & _ & _ & _ & Hp).
  - apply Forall_forall. intros name Hin Hbad.
    specialize (Hwf (plan_of s c name)). rewrite Hbad in Hwf.
    discriminate Hwf. apply list_elem_of_In, list_elem_of_fmap. by exists name.
  - apply Forall_forall. intros tf Hin. apply list_elem_of_In, Hself in Hin.
    apply negb_true_iff, bool_decide_eq_false in Hin. done.
  - done.
  - exists s'. rewrite (bind_Ok _ _ _ _ _ Hrel). split; [done|].
    intros name f Hreq.
    assert (name ∈ names) as Hin.
    { unfold _relationships in Hrel.
      destruct (class_heap s !! c ≫= _doc_type) as [m|] eqn:Hm; [|done].
      injection Hrel as <-. by eapply carries_request_relationship. }
    destruct (carries_request_plan _ _ _ _ Hreq)
      as (target & field_name & Hplan & Hrequests).
    { intros Hbad. specialize (Hwf (plan_of s c name)). rewrite Hbad in Hwf.
      discriminate Hwf. apply list_elem_of_In, list_elem_of_fmap.
      by exists name. }
    exists target, field_name. split; [done|].
    eapply synthesized_pair_symmetric, Hp; done.
Qed.

Lemma backref_symmetry_witness :
  exists s',
    generate_backrefs 1 book_finalized = Ok tt s'
    /\ forall name f,
         carries_request book_finalized 1 name f ->
         exists target field_name,
           requests book_finalized 1 name f target field_name
           /\ symmetric_pair s' target field_name f name.
Proof.
  apply (backref_symmetry 1 book_finalized). vm_compute. reflexivity.
Defined.

(** [Author] and [Book], end to end: [Author] has the field [books] whose
    marker is [author], and the marker of [Book.author] is [books]. *)
Example author_book_pair : symmetric_pair author_book 0 "books" 0 "author".
Proof. eexists _, _, _, _. split_and!; vm_compute; reflexivity. Qed.

(** * Further properties *)

(** ** What the reading primitives return *)

Lemma mapping_getitem_inv c name s :
  final_state (mapping_getitem c name s) = s
  /\ forall f s', mapping_getitem c name s = Ok f s' ->
       exists m, base_mapping s c = Some m /\ OrderedDict.get name m = Some f.
Proof.
  unfold mapping_getitem, base_mapping.
  destruct (class_heap s !! c ≫= _doc_type) as [m|]; [|done].
  destruct (OrderedDict.get name m) as [f|] eqn:Hget; [|done].
  split; [done|]. intros f' s' [= <- <-]. by exists m.
Qed.

Lemma read_relationship_inv f s :
  final_state (read_relationship f s) = s
  /\ forall r s', read_relationship f s = Ok r s' ->
       field_heap s !! f = Some (RelField r).
Proof.
  unfold read_relationship.
  destruct (field_heap s !! f) as [[t|r]|]; try done.
  split; [done|]. by intros r' s' [= <- <-].
Qed.

Lemma _doc_class_inv r s :
  final_state (_doc_class r s) = s
  /\ forall target s', _doc_class r s = Ok target s' ->
       _document_registry s !! document r = Some target.
Proof.
  unfold _doc_class.
  destruct (_document_registry s !! document r) as [t|]; [|done].
  split; [done|]. by intros t' s' [= <- <-].
Qed.

Lemma pop_name_inv d s :
  final_state (pop_name d s) = s
  /\ forall popped s', pop_name d s = Ok popped s' ->
       d !! "name" = Some (KStr popped.1) /\ popped.2 = delete "name" d.
Proof.
  unfold pop_name. destruct (d !! "name") as [[fn|b]|]; try done.
  split; [done|]. by intros p s' [= <- <-].
Qed.

Lemma class_name_inv c s :
  final_state (class_name c s) = s
  /\ forall name s', class_name c s = Ok name s' ->
       exists cls, class_heap s !! c = Some cls /\ name = cls_name cls.
Proof.
  unfold class_name. destruct (class_heap s !! c) as [cls|]; [|done].
  split; [done|]. intros n s' [= <- <-]. by exists cls.
Qed.

Lemma _relationships_final c s : final_state (_relationships c s) = s.
Proof. unfold _relationships. by repeat case_match. Qed.

Lemma Ok_final_state {A} (m : M A) s a s' :
  final_state (m s) = s -> m s = Ok a s' -> s' = s.
Proof. intros Hf Hm. rewrite Hm in Hf. done. Qed.

Lemma setdefault_lookup k v (d : gmap string kwval) k' :
  setdefault k v d !! k'
  = if decide (k = k') then Some (default v (d !! k)) else d !! k'.
Proof.
  unfold setdefault. destruct (d !! k) as [v'|] eqn:Hk.
  - destruct (decide (k = k')) as [<-|]; [by rewrite Hk | done].
  - rewrite lookup_insert. by destruct (decide (k = k')).
Qed.

(** ** The steps of backref synthesis *)

Lemma backref_shaped_marker cname fld fld' :
  same_but_marker fld fld' -> backref_shaped cname fld ->
  backref_shaped cname fld'.
Proof.
  intros Hsame (r & -> & Hdoc & Hreq & Hname & Huse).
  destruct fld' as [t|r']; simpl in Hsame; [done|].
  destruct Hsame as (Hd & Ho & Hb). exists r'.
  rewrite Hd, Ho, Hb. done.
Qed.

Lemma synthesized_refl c s : synthesized c s s.
Proof.
  unfold synthesized. split_and!; try done.
  - apply evolves_refl.
  - intros c0 m key Hm Hk. by exists m.
  - intros i fld Hi Hfld. apply lookup_lt_Some in Hfld. lia.
Qed.

Lemma synthesized_trans c s1 s2 s3 :
  synthesized c s1 s2 -> synthesized c s2 s3 -> synthesized c s1 s3.
Proof.
  intros (E1 & C1 & L1 & K1 & N1) (E2 & C2 & L2 & K2 & N2).
  unfold synthesized. split_and!.
  - by eapply evolves_trans.
  - congruence.
  - lia.
  - intros c0 m key Hm Hk.
    destruct (K1 _ _ _ Hm Hk) as (m' & Hm' & Hk'). by eapply K2.
  - intros i fld Hi Hfld.
    destruct (decide (i < length (field_heap s2))) as [Hlt|Hge].
    + destruct (lookup_lt_is_Some_2 _ _ Hlt) as [fld2 Hfld2].
      destruct (N1 _ _ Hi Hfld2) as (cls & Hcls & Hshape).
      exists cls. split; [done|].
      destruct E2 as (F2 & _). destruct (F2 _ _ Hfld2) as (fld' & Hfld' & Hsame).
      rewrite Hfld in Hfld'. injection Hfld' as <-.
      by eapply backref_shaped_marker.
    + destruct (N2 i fld) as (cls2 & Hcls2 & Hshape); [lia | done |].
      assert (c < length (class_heap s1)) as Hc
        by (rewrite <- C1; by eapply lookup_lt_Some).
      destruct (lookup_lt_is_Some_2 _ _ Hc) as [cls1 Hcls1].
      exists cls1. split; [done|].
      destruct E1 as (_ & H1 & _).
      destruct (H1 _ _ Hcls1) as (cls' & Hcls' & Hn & _).
      rewrite Hcls2 in Hcls'. injection Hcls' as <-. by rewrite <- Hn.
Qed.

Lemma synthesized_bind {A B} c (m : M A) (k : A -> M B) s :
  synthesized c s (final_state (m s)) ->
  (forall a s', m s = Ok a s' -> synthesized c s' (final_state (k a s'))) ->
  synthesized c s (final_state (bind m k s)).
Proof.
  intros Hm Hk. unfold bind.
  destruct (m s) as [a s'|e s'] eqn:E; simpl in *; [|done].
  eapply synthesized_trans; [done | by apply Hk].
Qed.

Lemma synthesized_read {A} c (m : M A) s :
  final_state (m s) = s -> synthesized c s (final_state (m s)).
Proof. intros ->. apply synthesized_refl. Qed.

Lemma synthesized_set_back_populates c f name s :
  synthesized c s (final_state (set_back_populates f name s)).
Proof.
  pose proof (evolving_set_back_populates f name s) as Hev.
  unfold set_back_populates in *.
  destruct (field_heap s !! f) as [[t|r]|] eqn:Hf; simpl in *;
    try apply synthesized_refl.
  unfold synthesized. simpl. split_and!; try done.
  - rewrite length_insert. lia.
  - intros c0 m key Hm Hk. by exists m.
  - intros i fld Hi Hfld. apply lookup_lt_Some in Hfld.
    rewrite length_insert in Hfld. lia.
Qed.

Lemma synthesized_mapping_field c target name f s :
  synthesized c s (final_state (mapping_field target name f s)).
Proof.
  pose proof (evolving_mapping_field target name f s) as Hev.
  unfold mapping_field in *.
  destruct (class_heap s !! target) as [cls|] eqn:Hc; simpl in *;
    [|apply synthesized_refl].
  destruct (_doc_type cls) as [m|] eqn:Hm; simpl in *;
    [|apply synthesized_refl].
  unfold synthesized. simpl. split_and!; try done.
  - apply length_insert.
  - intros c0 m0 key Hm0 Hk. unfold base_mapping in *. simpl.
    destruct (decide (target = c0)) as [<-|Hne].
    + rewrite list_lookup_insert_eq by (by eapply lookup_lt_Some).
      simpl. eexists. split; [done|].
      rewrite Hc in Hm0. simpl in Hm0. rewrite Hm in Hm0.
      injection Hm0 as <-. rewrite mem_set, Hk. apply orb_true_r.
    + rewrite list_lookup_insert_ne by done. by exists m0.
  - intros i fld Hi Hfld. apply lookup_lt_Some in Hfld. lia.
Qed.

Lemma synthesized_new_field c cls fld s :
  class_heap s !! c = Some cls ->
  backref_shaped (cls_name cls) fld ->
  synthesized c s (final_state (new_field fld s)).
Proof.
  intros Hc Hshape. pose proof (evolving_new_field fld s) as Hev.
  unfold new_field in *. simpl in *.
  unfold synthesized. simpl. split_and!; try done.
  - rewrite length_app. lia.
  - intros c0 m key Hm Hk. by exists m.
  - intros i fld' Hi Hfld. exists cls. split; [done|].
    apply lookup_snoc_Some in Hfld as [[Hlt _]|[_ <-]]; [lia | done].
Qed.

Lemma synthesized_backref_body c name s :
  synthesized c s (final_state (backref_body c name s)).
Proof.
  unfold backref_body.
  apply synthesized_bind;
    [apply synthesized_read, mapping_getitem_inv | intros field s1 _].
  apply synthesized_bind;
    [apply synthesized_read, read_relationship_inv | intros r s2 _].
  destruct (negb (truthy (_backref_kwargs r))); [apply synthesized_refl|].
  apply synthesized_bind;
    [apply synthesized_read, _doc_class_inv | intros target s3 _].
  apply synthesized_bind;
    [apply synthesized_read, pop_name_inv | intros popped s4 Hpop].
  apply (proj2 (pop_name_inv _ _)) in Hpop as [_ Hpopped].
  apply synthesized_bind;
    [apply synthesized_read, class_name_inv | intros new_name s5 Hname].
  pose proof (Ok_final_state _ _ _ _ (proj1 (class_name_inv _ _)) Hname) as ->.
  apply (proj2 (class_name_inv _ _)) in Hname as (cls & Hcls & ->).
  apply synthesized_bind.
  { eapply synthesized_new_field; [done|].
    eexists. split; [done|]. unfold Relationship_init. simpl.
    split_and!; try done.
    - rewrite setdefault_lookup, decide_False by done.
      rewrite Hpopped. apply lookup_delete_eq.
    - rewrite setdefault_lookup, decide_True by done. by eexists. }
  intros backref_field s6 _.
  apply synthesized_bind; [apply synthesized_set_back_populates | intros _ s7 _].
  apply synthesized_bind; [apply synthesized_mapping_field | intros _ s8 _].
  apply synthesized_set_back_populates.
Qed.

Lemma synthesized_for_each c names s :
  synthesized c s (final_state (for_each names (backref_body c) s)).
Proof.
  revert s. induction names as [|name names IH]; intros s; simpl.
  - apply synthesized_refl.
  - apply synthesized_bind; [apply synthesized_backref_body | auto].
Qed.

Lemma synthesized_generate_backrefs c s :
  synthesized c s (final_state (generate_backrefs c s)).
Proof.
  unfold generate_backrefs. apply synthesized_bind.
  - apply synthesized_read, _relationships_final.
  - intros names s' _. apply synthesized_for_each.
Qed.

(** X1: whatever its outcome, backref synthesis for the class [c] creates
    only field objects that are relationships on the name of [c], carry no
    inverse request of their own, and whose options have "uselist" and no
    "name". *)
Theorem synthesis_creates_backrefs_only c s i fld :
  length (field_heap s) <= i ->
  field_heap (final_state (generate_backrefs c s)) !! i = Some fld ->
  exists cls r,
    class_heap s !! c = Some cls /\ fld = RelField r
    /\ document r = cls_name cls /\ _backref_kwargs r = None
    /\ options r !! "name" = None /\ is_Some (options r !! "uselist").
Proof.
  intros Hi Hfld.
  destruct (synthesized_generate_backrefs c s) as (_ & _ & _ & _ & Hnew).
  destruct (Hnew _ _ Hi Hfld) as (cls & Hcls & r & -> & ? & ? & ? & ?).
  by exists cls, r.
Qed.

Lemma synthesis_creates_backrefs_only_witness :
  exists cls r,
    class_heap book_finalized !! 1 = Some cls
    /\ RelField {| document := "Book";
                   options := {["uselist" := KBool true]};
                   _backref_kwargs := None;
                   _back_populates := Some "author" |} = RelField r
    /\ document r = cls_name cls /\ _backref_kwargs r = None
    /\ options r !! "name" = None /\ is_Some (options r !! "uselist").
Proof.
  apply (synthesis_creates_backrefs_only 1 book_finalized 1).
  - vm_compute. lia.
  - vm_compute. reflexivity.
Defined.

(** X2: whatever its outcome, backref synthesis leaves the registry and
    the cluster alone, creates and drops no class, keeps the name, the
    bases and the attributes of every class, and never removes a name
    from a mapping. *)
Theorem synthesis_frame c s :
  let s' := final_state (generate_backrefs c s) in
  _document_registry s' = _document_registry s
  /\ es_indices s' = es_indices s
  /\ length (class_heap s') = length (class_heap s)
  /\ (forall c0 cls, class_heap s !! c0 = Some cls ->
        exists cls', class_heap s' !! c0 = Some cls'
                     /\ cls_name cls' = cls_name cls
                     /\ cls_bases cls' = cls_bases cls
                     /\ cls_dict cls' = cls_dict cls)
  /\ (forall c0 m key,
        base_mapping s c0 = Some m -> OrderedDict.mem key m = true ->
        exists m', base_mapping s' c0 = Some m'
                   /\ OrderedDict.mem key m' = true).
Proof.
  destruct (synthesized_generate_backrefs c s)
    as ((_ & HC & HR & HE) & HL & _ & HK & _).
  simpl. split_and!; try done.
  intros c0 cls Hc. destruct (HC _ _ Hc) as (cls' & Hc' & ? & ? & ? & _).
  by exists cls'.
Qed.

(** One turn of the loop on a well-formed request, with the counterpart
    it leaves in the mapping of the target. *)
Lemma backref_body_counterpart c name s f target field_name :
  plan_of s c name = Request f target field_name ->
  exists s' r d cls tm br,
    backref_body c name s = Ok tt s'
    /\ field_heap s !! f = Some (RelField r)
    /\ _backref_kwargs r = Some d
    /\ class_heap s !! c = Some cls
    /\ base_mapping s' target = Some tm
    /\ OrderedDict.get field_name tm = Some (length (field_heap s))
    /\ field_heap s' !! length (field_heap s) = Some (RelField br)
    /\ br = {| document := cls_name cls;
               options := setdefault "uselist" (KBool false) (delete "name" d);
               _backref_kwargs := None;
               _back_populates := Some name |}.
Proof.
  intros Hplan.
  destruct (plan_of_Request _ _ _ _ _ _ Hplan)
    as (m & r & d & tm & Hm & Hget & Hf & Hd & Ht & Hname & Hreg & Htm).
  unfold base_mapping in Hm, Htm.
  destruct (class_heap s !! c) as [cls|] eqn:Hc; [|done].
  destruct (class_heap s !! target) as [tcls|] eqn:Htc; [|done].
  simpl in Hm, Htm.
  assert (f < length (field_heap s)) as Hlt by (by eapply lookup_lt_Some).
  eexists _, r, d, cls, _, _. split_and!; try done.
  - unfold backref_body.
    rewrite (bind_Ok _ _ s f s)
      by (unfold mapping_getitem; by rewrite Hc; simpl; rewrite Hm, Hget).
    rewrite (bind_Ok _ _ s r s) by (unfold read_relationship; by rewrite Hf).
    rewrite Hd, Ht. cbn [negb from_option id].
    rewrite (bind_Ok _ _ s target s) by (unfold _doc_class; by rewrite Hreg).
    rewrite (bind_Ok _ _ s (field_name, delete "name" d) s)
      by (unfold pop_name; by rewrite Hname).
    rewrite (bind_Ok _ _ s (cls_name cls) s)
      by (unfold class_name; by rewrite Hc).
    cbn [fst snd]. unfold bind, new_field, set_back_populates, mapping_field.
    cbn [field_heap class_heap with_fields with_classes].
    rewrite list_lookup_middle by done. cbn [Relationship_init].
    cbn [field_heap class_heap with_fields with_classes document options
           _backref_kwargs _back_populates].
    rewrite Htc, Htm.
    cbn [field_heap class_heap with_fields with_classes].
    rewrite list_lookup_insert_ne by lia.
    rewrite (lookup_app_l_Some _ _ _ _ Hf). reflexivity.
  - unfold base_mapping. simpl.
    rewrite list_lookup_insert_eq by (by eapply lookup_lt_Some). done.
  - apply get_set_eq.
  - simpl. rewrite list_lookup_insert_ne by lia.
    rewrite list_lookup_insert_eq; [done|]. rewrite length_app. simpl. lia.
Qed.

(** X3: one turn of the loop on a well-formed request leaves, under the
    requested name in the mapping of the target, a relationship on the
    name of the new class whose marker is the originating field's name.
    Its options are those of the request without "name"; "uselist" is the
    requested value, or false when the request has none. *)
Theorem backref_options_default_uselist c name s f target field_name :
  plan_of s c name = Request f target field_name ->
  exists s' r d cls tm bf br,
    backref_body c name s = Ok tt s'
    /\ field_heap s !! f = Some (RelField r)
    /\ _backref_kwargs r = Some d
    /\ class_heap s !! c = Some cls
    /\ base_mapping s' target = Some tm
    /\ OrderedDict.get field_name tm = Some bf
    /\ field_heap s' !! bf = Some (RelField br)
    /\ document br = cls_name cls
    /\ _back_populates br = Some name
    /\ _backref_kwargs br = None
    /\ options br !! "name" = None
    /\ options br !! "uselist" = Some (default (KBool false) (d !! "uselist"))
    /\ forall k, k <> "name" -> k <> "uselist" -> options br !! k = d !! k.
Proof.
  intros Hplan.
  destruct (backref_body_counterpart _ _ _ _ _ _ Hplan)
    as (s' & r & d & cls & tm & br & Hrun & Hf & Hd & Hc & Htm & Hbf & Hbr & ->).
  exists s', r, d, cls, tm, (length (field_heap s)). eexists.
  split_and!; try done; simpl.
  - rewrite setdefault_lookup, decide_False by done. apply lookup_delete_eq.
  - rewrite setdefault_lookup, decide_True by done.
    by rewrite lookup_delete_ne.
  - intros k Hn Hu. rewrite setdefault_lookup, decide_False by done.
    by apply lookup_delete_ne.
Qed.

Lemma backref_options_default_uselist_witness :
  exists s' r d cls tm bf br,
    backref_body 1 "author" colliding_free = Ok tt s'
    /\ field_heap colliding_free !! 0 = Some (RelField r)
    /\ _backref_kwargs r = Some d
    /\ class_heap colliding_free !! 1 = Some cls
    /\ base_mapping s' 0 = Some tm
    /\ OrderedDict.get "writings" tm = Some bf
    /\ field_heap s' !! bf = Some (RelField br)
    /\ document br = cls_name cls
    /\ _back_populates br = Some "author"
    /\ _backref_kwargs br = None
    /\ options br !! "name" = None
    /\ options br !! "uselist" = Some (default (KBool false) (d !! "uselist"))
    /\ forall k, k <> "name" -> k <> "uselist" -> options br !! k = d !! k.
Proof.
  apply (backref_options_default_uselist 1 "author" colliding_free 0 0 "writings").
  vm_compute. reflexivity.
Defined.

(** X4: a turn of the loop that raises has written nothing into the
    objects that were there: the classes, with their mappings, the
    registry, the cluster and every existing field are as before.  (At
    most a fresh field object is left behind, referred to by nothing.) *)
Theorem backref_body_raise_writes_nothing c name s e s' :
  backref_body c name s = Raise e s' ->
  class_heap s' = class_heap s
  /\ _document_registry s' = _document_registry s
  /\ es_indices s' = es_indices s
  /\ forall f fld, field_heap s !! f = Some fld -> field_heap s' !! f = Some fld.
Proof.
  unfold backref_body, bind.
  destruct (mapping_getitem c name s) as [f s1|e1 s1] eqn:H1.
  2:{ pose proof (proj1 (mapping_getitem_inv c name s)) as Hs.
      rewrite H1 in Hs. simpl in Hs. intros [= _ <-]. subst. by split_and!. }
  pose proof (Ok_final_state _ _ _ _ (proj1 (mapping_getitem_inv _ _ _)) H1) as ->.
  destruct (read_relationship f s) as [r s2|e2 s2] eqn:H2.
  2:{ pose proof (proj1 (read_relationship_inv f s)) as Hs.
      rewrite H2 in Hs. simpl in Hs. intros [= _ <-]. subst. by split_and!. }
  pose proof (Ok_final_state _ _ _ _ (proj1 (read_relationship_inv _ _)) H2) as ->.
  apply (proj2 (read_relationship_inv _ _)) in H2.
  destruct (negb (truthy (_backref_kwargs r))); [done|].
  destruct (_doc_class r s) as [target s3|e3 s3] eqn:H3.
  2:{ pose proof (proj1 (_doc_class_inv r s)) as Hs.
      rewrite H3 in Hs. simpl in Hs. intros [= _ <-]. subst. by split_and!. }
  pose proof (Ok_final_state _ _ _ _ (proj1 (_doc_class_inv _ _)) H3) as ->.
  destruct (pop_name _ s) as [popped s4|e4 s4] eqn:H4.
  2:{ pose proof (proj1 (pop_name_inv (default ∅ (_backref_kwargs r)) s)) as Hs.
      rewrite H4 in Hs. simpl in Hs. intros [= _ <-]. subst. by split_and!. }
  pose proof (Ok_final_state _ _ _ _ (proj1 (pop_name_inv _ _)) H4) as ->.
  destruct (class_name c s) as [new_name s5|e5 s5] eqn:H5.
  2:{ pose proof (proj1 (class_name_inv c s)) as Hs.
      rewrite H5 in Hs. simpl in Hs. intros [= _ <-]. subst. by split_and!. }
  pose proof (Ok_final_state _ _ _ _ (proj1 (class_name_inv _ _)) H5) as ->.
  assert (f < length (field_heap s)) as Hlt by (by eapply lookup_lt_Some).
  unfold new_field, set_back_populates, mapping_field.
  cbn [field_heap class_heap with_fields with_classes].
  rewrite list_lookup_middle by done.
  cbn [field_heap class_heap with_fields with_classes].
  assert (forall x f0 fld, field_heap s !! f0 = Some fld ->
            <[length (field_heap s) := x]>
              (field_heap s ++ [RelField (Relationship_init new_name
                 (setdefault "uselist" (KBool false) popped.2))]) !! f0
            = Some fld) as Hkeep.
  { intros x f0 fld Hf0.
    rewrite list_lookup_insert_ne
      by (apply lookup_lt_Some in Hf0; lia).
    by apply lookup_app_l_Some. }
  destruct (class_heap s !! target) as [tcls|];
    [|intros [= _ <-]; split_and!; try done; simpl; eauto].
  destruct (_doc_type tcls) as [tm|];
    [|intros [= _ <-]; split_and!; try done; simpl; eauto].
  cbn [field_heap class_heap with_fields with_classes].
  rewrite (Hkeep _ _ _ H2). done.
Qed.

Lemma backref_body_raise_writes_nothing_witness :
  class_heap nameless_request = class_heap nameless_request
  /\ _document_registry nameless_request = _document_registry nameless_request
  /\ es_indices nameless_request = es_indices nameless_request
  /\ forall f fld, field_heap nameless_request !! f = Some fld ->
                   field_heap nameless_request !! f = Some fld.
Proof.
  apply (backref_body_raise_writes_nothing 1 "author" nameless_request
           (KeyError "name") nameless_request).
  vm_compute. reflexivity.
Defined.

(** X5: a request that is not empty but does not say the name of the
    backref makes its turn of the loop raise [KeyError] on "name", once
    the target has been resolved and before anything is written. *)
Theorem nameless_request_raises c name s f r d target :
  mapping_getitem c name s = Ok f s ->
  field_heap s !! f = Some (RelField r) ->
  _backref_kwargs r = Some d -> d <> ∅ -> d !! "name" = None ->
  _document_registry s !! document r = Some target ->
  backref_body c name s = Raise (KeyError "name") s.
Proof.
  intros Hget Hf Hd Hne Hname Hreg.
  unfold backref_body. rewrite (bind_Ok _ _ _ _ _ Hget).
  rewrite (bind_Ok _ _ s r s) by (unfold read_relationship; by rewrite Hf).
  rewrite Hd. unfold truthy. rewrite bool_decide_false by done.
  cbn [negb from_option id].
  rewrite (bind_Ok _ _ s target s) by (unfold _doc_class; by rewrite Hreg).
  unfold bind, pop_name. by rewrite Hname.
Qed.

Lemma nameless_request_raises_witness :
  backref_body 1 "author" nameless_request
  = Raise (KeyError "name") nameless_request.
Proof.
  apply (nameless_request_raises 1 "author" nameless_request 0
           (mkRelationship "Author" ∅ (Some {["uselist" := KBool true]}) None)
           {["uselist" := KBool true]} 0);
    try (vm_compute; reflexivity).
  intros H. apply (f_equal (fun m => m !! "uselist")) in H.
  vm_compute in H. discriminate H.
Defined.

(** ** Field inheritance, beyond the candidates *)

Lemma scan_dict_source key val (d nondoc_fields : odict pyval) :
  OrderedDict.get key
    (fold_left (fun nondoc_fields kv =>
                  if isinstance_Field kv.2
                  then OrderedDict.set kv.1 kv.2 nondoc_fields
                  else nondoc_fields) d nondoc_fields) = Some val ->
  OrderedDict.get key nondoc_fields = Some val
  \/ (isinstance_Field val = true /\ (key, val) ∈ d).
Proof.
  revert nondoc_fields. induction d as [|[k v] d IH]; intros nd; [by left|].
  cbn [fold_left fst snd]. intros H. apply IH in H as [H|[Hv Hin]].
  - destruct (isinstance_Field v) eqn:Hv; [|by left].
    rewrite get_set in H. destruct (decide (k = key)) as [->|Hne]; [|by left].
    injection H as <-. right. split; [done | apply list_elem_of_here].
  - right. split; [done | by apply list_elem_of_further].
Qed.

Lemma scan_bases_source s bases acc key val :
  OrderedDict.get key (fold_left (scan_base s) bases acc).1 = Some val ->
  OrderedDict.get key acc.1 = Some val
  \/ (isinstance_Field val = true
      /\ exists base, base ∈ bases /\ base_mapping s base = None
                      /\ (key, val) ∈ base_dict s base).
Proof.
  revert acc. induction bases as [|b bases IH]; intros [nd bdf]; [by left|].
  simpl. intros H. apply IH in H as [H|(Hv & base & Hin & Hm & Hd)].
  - destruct (base_mapping s b) eqn:Hb; simpl in H; [by left|].
    apply scan_dict_source in H as [H|[Hv Hd]]; [by left|].
    right. split; [done|]. exists b. split; [apply list_elem_of_here | done].
  - right. split; [done|]. exists base.
    split; [by apply list_elem_of_further | done].
Qed.

(** X6: every candidate is a [Field] instance bound under its name in the
    body of a base that has no mapping.  Other attributes of such a base,
    and whatever the body of a document-typed base binds, are never
    candidates. *)
Theorem candidates_are_mixin_fields s bases key val :
  OrderedDict.get key (scan_bases s bases).1 = Some val ->
  isinstance_Field val = true
  /\ exists base, base ∈ bases /\ base_mapping s base = None
                  /\ (key, val) ∈ base_dict s base.
Proof.
  intros H. unfold scan_bases in H.
  by apply scan_bases_source in H as [H|H].
Qed.

Lemma candidates_are_mixin_fields_witness :
  isinstance_Field (VField 1) = true
  /\ exists base, base ∈ [0; 1] /\ base_mapping two_mixins base = None
                  /\ ("f", VField 1) ∈ base_dict two_mixins base.
Proof.
  apply (candidates_are_mixin_fields two_mixins [0; 1] "f" (VField 1)).
  vm_compute. reflexivity.
Defined.

Lemma scan_dict_no_field (d nondoc_fields : odict pyval) :
  Forall (fun kv => isinstance_Field kv.2 = false) d ->
  fold_left (fun nondoc_fields kv =>
               if isinstance_Field kv.2
               then OrderedDict.set kv.1 kv.2 nondoc_fields
               else nondoc_fields) d nondoc_fields = nondoc_fields.
Proof.
  revert nondoc_fields. induction d as [|[k v] d IH]; intros nd Hd; [done|].
  apply Forall_cons in Hd as [Hv Hd]. simpl in *. rewrite Hv. by apply IH.
Qed.

Lemma scan_bases_no_field s bases acc :
  Forall (binds_no_field s) bases ->
  (fold_left (scan_base s) bases acc).1 = acc.1.
Proof.
  revert acc. induction bases as [|b bases IH]; intros [nd bdf] Hb; [done|].
  apply Forall_cons in Hb as [Hb Hbs]. simpl. rewrite IH by done.
  destruct Hb as [[m Hm]|Hd].
  - by rewrite Hm.
  - destruct (base_mapping s b); [done|]. simpl. by apply scan_dict_no_field.
Qed.

Lemma inherit_fields_no_field s name bases attrs :
  Forall (binds_no_field s) bases ->
  inherit_fields s name bases attrs = (name, attrs).
Proof.
  intros Hb. unfold inherit_fields.
  pose proof (scan_bases_no_field s bases ([], []) Hb) as H.
  fold (scan_bases s bases) in H.
  destruct (scan_bases s bases) as [nd bdf]. simpl in H. by subst.
Qed.

(** X7: when every base is a document class or binds no [Field], the
    mixin hands the declared name and the declared attributes on as they
    are, and the foundation is called on them in the same store. *)
Theorem inherit_fields_nothing_to_inherit super_new s name bases attrs :
  Forall (binds_no_field s) bases ->
  inherit_fields s name bases attrs = (name, attrs)
  /\ NonDocumentInheritanceMixin_new super_new name bases attrs s
     = super_new name bases attrs s.
Proof.
  intros Hb. pose proof (inherit_fields_no_field s name bases attrs Hb) as H.
  split; [done|]. unfold NonDocumentInheritanceMixin_new. by rewrite H.
Qed.

Lemma inherit_fields_nothing_to_inherit_witness :
  inherit_fields author_book "Novel" [1] [("pages", VOther "int")]
  = ("Novel", [("pages", VOther "int")])
  /\ NonDocumentInheritanceMixin_new ESDocTypeMeta_new "Novel" [1]
       [("pages", VOther "int")] author_book
     = ESDocTypeMeta_new "Novel" [1] [("pages", VOther "int")] author_book.
Proof.
  apply (inherit_fields_nothing_to_inherit ESDocTypeMeta_new author_book
           "Novel" [1] [("pages", VOther "int")]).
  apply Forall_cons. split; [|apply Forall_nil_2].
  left. vm_compute. eexists. reflexivity.
Defined.

(** X8: the merge only adds.  Every binding of the class body is handed
    on as it is, and a name the class body does not bind is bound
    afterwards only to the candidate kept for it, and only when no
    document-typed base covers the name. *)
Theorem inherit_fields_only_adds s name bases attrs key :
  let attrs' := (inherit_fields s name bases attrs).2 in
  (forall v, OrderedDict.get key attrs = Some v ->
             OrderedDict.get key attrs' = Some v)
  /\ (forall v, OrderedDict.get key attrs = None ->
                OrderedDict.get key attrs' = Some v ->
                OrderedDict.get key (scan_bases s bases).1 = Some v
                /\ ~ covered s bases key).
Proof.
  intros attrs'. subst attrs'. unfold inherit_fields.
  pose proof (scan_bases_NoDup s bases) as Hnd.
  pose proof (scan_bases_covered s bases key) as Hcov.
  destruct (scan_bases s bases) as [nd bdf]. simpl in *.
  rewrite inherit_fold_get by done. split.
  - by intros v ->.
  - intros v ->. destruct (OrderedDict.mem key bdf) eqn:Hmem; [done|].
    intros Hget. split; [done|]. intros Hc. apply Hcov in Hc. congruence.
Qed.

(** ** The name of the class *)

Lemma ESDocTypeMeta_new_Ok name bases attrs s :
  exists cls,
    ESDocTypeMeta_new name bases attrs s
    = Ok (length (class_heap s)) (with_classes (class_heap s ++ [cls]) s)
    /\ cls_name cls = name /\ cls_bases cls = bases /\ cls_dict cls = attrs
    /\ is_Some (_doc_type cls).
Proof.
  unfold ESDocTypeMeta_new, new_class. eexists. split; [reflexivity|].
  simpl. split_and!; try done.
Qed.

Lemma DocTypeMeta_new_Ok name bases attrs s c s' :
  DocTypeMeta_new name bases attrs s = Ok c s' ->
  exists cls,
    c = length (class_heap s)
    /\ class_heap s' !! c = Some cls
    /\ cls_name cls = (inherit_fields s name bases attrs).1
    /\ _document_registry s'
       = <[cls_name cls := c]> (_document_registry s).
Proof.
  rewrite DocTypeMeta_new_stages.
  destruct (inherit_fields s name bases attrs) as [name' attrs']. simpl.
  destruct (ESDocTypeMeta_new_Ok name' bases attrs' s)
    as (cls1 & Hnew & Hname & _).
  unfold bind. rewrite Hnew.
  set (s1 := with_classes (class_heap s ++ [cls1]) s).
  pose proof (evolving_generate_backrefs (length (class_heap s)) s1) as Hev.
  destruct (generate_backrefs (length (class_heap s)) s1) as [[] s2|e s2];
    [|done]. simpl in Hev.
  destruct (register (length (class_heap s)) s2) as [[] s3|e s3] eqn:Hr;
    [|done].
  intros [= <- <-].
  destruct (register_registry _ _ _ Hr) as (cls & Hc & Hreg).
  exists cls. split_and!; try done.
  - destruct Hev as (_ & HC & _).
    destruct (HC (length (class_heap s)) cls1) as (cls2 & Hc2 & Hn & _).
    { subst s1. simpl. by apply list_lookup_middle. }
    unfold register, bind, class_name in Hr. rewrite Hc2 in Hr.
    injection Hr as <-. simpl in Hc. rewrite Hc2 in Hc.
    injection Hc as <-. congruence.
  - rewrite Hreg. destruct Hev as (_ & _ & -> & _). done.
Qed.

(** X9: a declaration that returns has built a class whose [__name__] is
    the name of the last candidate kept from the non-document bases, or
    the declared name when there is no candidate, and the registry files
    the class under that [__name__]. *)
Theorem class_named_after_last_candidate name bases attrs s c s' :
  DocTypeMeta_new name bases attrs s = Ok c s' ->
  exists cls,
    class_heap s' !! c = Some cls
    /\ cls_name cls
       = default name (last (OrderedDict.keys (scan_bases s bases).1))
    /\ get_document_cls (cls_name cls) s' = Ok c s'.
Proof.
  intros H. apply DocTypeMeta_new_Ok in H as (cls & _ & Hc & Hn & Hreg).
  exists cls. split_and!; [done | by rewrite Hn, inherit_fields_name |].
  unfold get_document_cls. by rewrite Hreg, lookup_insert_eq.
Qed.

Lemma class_named_after_last_candidate_witness :
  exists cls,
    class_heap (run story_program) !! 2 = Some cls
    /\ cls_name cls
       = default "Story"
           (last (OrderedDict.keys
                    (scan_bases
                       (run [NewField (PlainField "string");
                             DeclareClass "Mixin" [] [("f", VField 0)];
                             DeclareDocument "BaseDocument" [] []])
                       [0; 1]).1))
    /\ get_document_cls (cls_name cls) (run story_program)
       = Ok 2 (run story_program).
Proof.
  apply (class_named_after_last_candidate "Story" [0; 1] []
           (run [NewField (PlainField "string");
                 DeclareClass "Mixin" [] [("f", VField 0)];
                 DeclareDocument "BaseDocument" [] []])
           2 (run story_program)).
  vm_compute. reflexivity.
Defined.

(** X10: when every base is a document class or binds no [Field], a
    declaration that returns has registered the new class under the
    declared name: looking the declared name up returns it. *)
Theorem declared_name_registered name bases attrs s c s' :
  Forall (binds_no_field s) bases ->
  DocTypeMeta_new name bases attrs s = Ok c s' ->
  get_document_cls name s' = Ok c s'
  /\ exists cls, class_heap s' !! c = Some cls /\ cls_name cls = name.
Proof.
  intros Hb H. apply DocTypeMeta_new_Ok in H as (cls & _ & Hc & Hn & Hreg).
  rewrite inherit_fields_no_field in Hn by done. simpl in Hn.
  split; [|by exists cls].
  unfold get_document_cls. by rewrite Hreg, Hn, lookup_insert_eq.
Qed.

Lemma declared_name_registered_witness :
  get_document_cls "Book" author_book = Ok 1 author_book
  /\ exists cls, class_heap author_book !! 1 = Some cls /\ cls_name cls = "Book".
Proof.
  apply (declared_name_registered "Book" [] [("author", VField 0)]
           author_declared 1 author_book).
  - apply Forall_nil_2.
  - vm_compute. reflexivity.
Defined.

(** ** What a declaration leaves alone *)

Lemma DocTypeMeta_new_declared_over name bases attrs s :
  declared_over s (final_state (DocTypeMeta_new name bases attrs s)).
Proof.
  rewrite DocTypeMeta_new_stages.
  destruct (inherit_fields s name bases attrs) as [name' attrs']. simpl.
  destruct (ESDocTypeMeta_new_Ok name' bases attrs' s) as (cls1 & Hnew & _).
  pose proof (evolving_ESDocTypeMeta_new name' bases attrs' s) as H1.
  unfold bind. rewrite Hnew in *. simpl in H1.
  set (s1 := with_classes (class_heap s ++ [cls1]) s) in *.
  pose proof (evolving_generate_backrefs (length (class_heap s)) s1) as H2.
  pose proof (evolves_trans _ _ _ H1 H2) as (HF & HC & HR & HE).
  destruct (generate_backrefs (length (class_heap s)) s1) as [[] s2|e s2];
    simpl in *.
  2:{ unfold declared_over. split_and!; try done. intros n. left. by rewrite HR. }
  unfold register, bind, class_name.
  destruct (class_heap s2 !! length (class_heap s)) as [cls|]; simpl.
  2:{ unfold declared_over. split_and!; try done. intros n. left. by rewrite HR. }
  unfold declared_over. simpl. split_and!; try done.
  intros n. rewrite HR. destruct (decide (cls_name cls = n)) as [<-|Hne].
  - right. apply lookup_insert_eq.
  - left. by apply lookup_insert_ne.
Qed.

(** X11: whatever its outcome, a declaration keeps every field object up
    to its marker and every class object up to its mapping, leaves the
    cluster alone, and changes a registry entry only by pointing it at
    the class it has just built. *)
Theorem declaration_frame name bases attrs s :
  let s' := final_state (DocTypeMeta_new name bases attrs s) in
  (forall f fld, field_heap s !! f = Some fld ->
     exists fld', field_heap s' !! f = Some fld' /\ same_but_marker fld fld')
  /\ (forall c cls, class_heap s !! c = Some cls ->
        exists cls', class_heap s' !! c = Some cls' /\ same_but_mapping cls cls')
  /\ es_indices s' = es_indices s
  /\ (forall n,
        _document_registry s' !! n = _document_registry s !! n
        \/ (_document_registry s' !! n = Some (length (class_heap s))
            /\ class_heap s !! length (class_heap s) = None)).
Proof.
  destruct (DocTypeMeta_new_declared_over name bases attrs s)
    as (HF & HC & HE & HR).
  simpl. split_and!; try done.
  intros n. destruct (HR n) as [H|H]; [by left|].
  right. split; [done|]. by apply lookup_ge_None.
Qed.

(** X12: declaring a class under a name that is taken replaces the entry:
    the name now leads to the new class, which is another object than
    the one registered before, and the old class is still in the store. *)
Theorem redeclaration_replaces name bases attrs s c1 cls1 c2 cls2 s' :
  _document_registry s !! cls_name cls2 = Some c1 ->
  class_heap s !! c1 = Some cls1 ->
  DocTypeMeta_new name bases attrs s = Ok c2 s' ->
  class_heap s' !! c2 = Some cls2 ->
  get_document_cls (cls_name cls2) s' = Ok c2 s'
  /\ c2 <> c1
  /\ exists cls1', class_heap s' !! c1 = Some cls1'
                   /\ same_but_mapping cls1 cls1'.
Proof.
  intros Hreg Hc1 Hrun Hc2.
  pose proof (DocTypeMeta_new_declared_over name bases attrs s) as Hover.
  rewrite Hrun in Hover. simpl in Hover.
  apply DocTypeMeta_new_Ok in Hrun as (cls & -> & Hc & _ & Hreg').
  rewrite Hc2 in Hc. injection Hc as <-.
  split_and!.
  - unfold get_document_cls. by rewrite Hreg', lookup_insert_eq.
  - apply lookup_lt_Some in Hc1. lia.
  - by apply Hover.
Qed.

Lemma redeclaration_replaces_witness :
  get_document_cls "Author"
    (run [DeclareDocument "Author" [] []; DeclareDocument "Author" [] []])
  = Ok 1 (run [DeclareDocument "Author" [] []; DeclareDocument "Author" [] []])
  /\ 1 <> 0
  /\ exists cls1',
       class_heap
         (run [DeclareDocument "Author" [] []; DeclareDocument "Author" [] []])
         !! 0 = Some cls1'
       /\ same_but_mapping (mkClass "Author" [] [] (Some [])) cls1'.
Proof.
  apply (redeclaration_replaces "Author" [] [] author_once 0
           (mkClass "Author" [] [] (Some [])) 1
           (mkClass "Author" [] [] (Some [])));
    vm_compute; reflexivity.
Defined.

(** ** Index creation, with a class list and after a declaration *)

(** X13: given a class list, [create_index] passes exactly the listed
    classes, in their order, and consults the registry for none (an empty
    list gives an index without classes); with or without a list, it
    changes neither the registry nor any class or field, whatever the
    cluster answers. *)
Theorem create_index_explicit_classes name s :
  (forall classes,
      create_index name (Some classes) s
      = Index_create {| index_name := name; index_doc_types := classes |} s)
  /\ (forall doc_classes,
        let s' := final_state (create_index name doc_classes s) in
        _document_registry s' = _document_registry s
        /\ class_heap s' = class_heap s
        /\ field_heap s' = field_heap s).
Proof.
  split.
  - intros classes. unfold create_index, bind, ret.
    by rewrite fold_Index_doc_type.
  - intros doc_classes. unfold create_index, bind, Index_create.
    destruct doc_classes; simpl; by repeat case_match.
Qed.

(** X14: a class whose declaration returned is among the classes of an
    index created afterwards without a class list. *)
Theorem declared_class_in_default_index name bases attrs s c s' index_name :
  DocTypeMeta_new name bases attrs s = Ok c s' ->
  exists index,
    create_index index_name None s' = Index_create index s'
    /\ c ∈ index_doc_types index.
Proof.
  intros H. apply DocTypeMeta_new_Ok in H as (cls & _ & _ & _ & Hreg).
  exists (fold_left Index_doc_type (values (_document_registry s'))
            (Index_init index_name)).
  split; [done|]. rewrite fold_Index_doc_type. simpl.
  apply elem_of_values. exists (cls_name cls).
  by rewrite Hreg, lookup_insert_eq.
Qed.

Lemma declared_class_in_default_index_witness :
  exists index,
    create_index "library" None author_book = Index_create index author_book
    /\ 1 ∈ index_doc_types index.
Proof.
  apply (declared_class_in_default_index "Book" [] [("author", VField 0)]
           author_declared 1 author_book "library").
  vm_compute. reflexivity.
Defined.

(** ** Synthesis and the class under construction *)

(** X15: when the requests of the new class are well formed, backref
    synthesis leaves the mapping of the new class itself as the
    foundation finalized it, creates no class and touches neither the
    registry nor the cluster. *)
Theorem synthesis_keeps_own_mapping c s :
  well_formed_requests s c = true ->
  exists s',
    generate_backrefs c s = Ok tt s'
    /\ base_mapping s' c = base_mapping s c
    /\ _document_registry s' = _document_registry s
    /\ es_indices s' = es_indices s.
Proof.
  unfold well_formed_requests, generate_backrefs.
  destruct (_relationships c s) as [names s1|e s1] eqn:Hrel; [|done].
  assert (s1 = s) as ->.
  { pose proof (_relationships_final c s) as H. by rewrite Hrel in H. }
  rewrite !andb_true_iff. intros [[Hwf Hself] Hnd].
  apply bool_decide_eq_true in Hnd.
  rewrite forallb_forall in Hwf, Hself.
  destruct (for_each_backref_body c s names)
    as (s' & Hrun & (_ & _ & HR & HE) & Hc & _).
  - apply Forall_forall. intros name Hin Hbad.
    specialize (Hwf (plan_of s c name)). rewrite Hbad in Hwf.
    discriminate Hwf. apply list_elem_of_In, list_elem_of_fmap. by exists name.
  - apply Forall_forall. intros tf Hin. apply list_elem_of_In, Hself in Hin.
    apply negb_true_iff, bool_decide_eq_false in Hin. done.
  - done.
  - exists s'. by rewrite (bind_Ok _ _ _ _ _ Hrel).
Qed.

Lemma synthesis_keeps_own_mapping_witness :
  exists s',
    generate_backrefs 1 book_finalized = Ok tt s'
    /\ base_mapping s' 1 = base_mapping book_finalized 1
    /\ _document_registry s' = _document_registry book_finalized
    /\ es_indices s' = es_indices book_finalized.
Proof.
  apply (synthesis_keeps_own_mapping 1 book_finalized).
  vm_compute. reflexivity.
Defined.
